(** * Focal loss (monai/losses/focal_loss.py): a shallow embedding

    The tensor engine's floating-point numbers are idealised as real
    numbers: every elementwise operation of [FocalLoss.forward] is read as
    the exact operation on [R]: rounding is not modelled.  Where the
    program's floating-point numbers decide what happens, they are modelled
    as such: the class weights are converted to the float32 or int64 numbers
    of the weight tensor before they are checked, a run in which an Inf or a
    NaN appears is marked [NonFinite] and not followed, and the underflow of
    the focal factor to zero is stated on [Elem.exp_fl]. *)

From Stdlib Require Import String Ascii Decimal DecimalString.
From Stdlib Require Import ZArith SpecFloat.
From Stdlib Require Import Reals Lra Lia List Arith Bool.
Import ListNotations.

Open Scope R_scope.

(** ** Elementwise primitives of the tensor engine *)

Module Elem.

(** [x.clamp(min=lo)] *)
Definition clamp_min (x lo : R) : R := Rmax x lo.

(** [torch.sigmoid] *)
Definition sigmoid (x : R) : R := 1 / (1 + exp (- x)).

(** [F.logsigmoid]: the logarithm of the sigmoid. *)
Definition logsigmoid (x : R) : R := ln (sigmoid x).

(** Lines 122-123: binary cross entropy with logits, for one logit [i]
    and one label [t]. *)
Definition max_val (i : R) : R := clamp_min (- i) 0.

Definition ce (i t : R) : R :=
  i - i * t + max_val i + ln (exp (- max_val i) + exp (- i - max_val i)).

(** The textbook definition the formula above is compared with. *)
Definition ce_reference (i t : R) : R :=
  - (t * ln (sigmoid i) + (1 - t) * ln (1 - sigmoid i)).

(** Line 149: [p = F.logsigmoid(-i * (t * 2.0 - 1.0))]. *)
Definition p (i t : R) : R := logsigmoid (- i * (t * 2 - 1)).

(** Line 150, the factor in front of [ce]: [(p * self.gamma).exp()]. *)
Definition modulation (gamma i t : R) : R := exp (p i t * gamma).

(** Line 150, one element of the tensor that is averaged; [cew] is the
    element of [ce] after the optional class weighting of line 145. *)
Definition focal_term (gamma i t cew : R) : R := modulation gamma i t * cew.




End Elem.

(** ** Python-level outcomes: exceptions and warnings *)

Inductive Exn : Type :=
| ValueError (msg : string)
| AssertionError (msg : string)
| IndexError
| RuntimeError.

(** A run of Python code returns a value or raises.  [NonFinite] marks a
    run in which an Inf or a NaN has appeared in a tensor: the program goes
    on with it and raises nothing, but the real numbers have neither, and the
    run is not followed any further. *)
Inductive result (A : Type) : Type :=
| Ok (a : A)
| Raise (e : Exn)
| NonFinite.
Arguments Ok {A} a.
Arguments Raise {A} e.
Arguments NonFinite {A}.

(** A computation yields the warnings it emitted, in order, and either a
    value, the exception that stopped it, or [NonFinite]. *)
Definition M (A : Type) : Type := (list string * result A)%type.

Definition ret {A} (a : A) : M A := ([], Ok a).
Definition raise {A} (e : Exn) : M A := ([], Raise e).
Definition warn (msg : string) : M unit := ([msg], Ok tt).
Definition lift {A} (r : result A) : M A := ([], r).

Definition bind {A B} (m : M A) (f : A -> M B) : M B :=
  match m with
  | (w, Ok a) => let (w', r) := f a in (w ++ w', r)
  | (w, Raise e) => (w, Raise e)
  | (w, NonFinite) => (w, NonFinite)
  end.

Declare Scope py_scope.
Delimit Scope py_scope with py.
Notation "x <- m ;; k" := (bind m (fun x => k))
  (at level 61, m at next level, right associativity) : py_scope.
Notation "' pat <- m ;; k" := (bind m (fun x => match x with pat => k end))
  (at level 61, pat pattern, m at next level, right associativity) : py_scope.
Notation "m ;;; k" := (bind m (fun _ => k))
  (at level 61, right associativity) : py_scope.
Open Scope py_scope.

(** ** Tensors: a shape and the elements in row-major order *)

Record Tensor : Type := mkTensor { shape : list nat; data : list R }.

Definition numel (x : Tensor) : nat := fold_right Nat.mul 1%nat (shape x).

(** What the tensor engine guarantees of every tensor it hands out. *)
Definition wf (x : Tensor) : Prop := length (data x) = numel x.

(** [str(n)] for a non-negative integer. *)
Definition str_nat (n : nat) : string := NilEmpty.string_of_uint (Nat.to_uint n).

(** [str(x.shape)], as in [torch.Size([3, 2])]. *)
Definition str_Size (s : list nat) : string :=
  ("torch.Size([" ++ String.concat ", " (map str_nat s) ++ "])")%string.

Definition shape_eqb (s1 s2 : list nat) : bool :=
  if list_eq_dec Nat.eq_dec s1 s2 then true else false.

(** [x.shape[k]] *)
Definition shape_at (x : Tensor) (k : nat) : result nat :=
  match nth_error (shape x) k with
  | Some d => Ok d
  | None => Raise IndexError
  end.

(** The [k]-th block of [sz] consecutive elements. *)
Definition block (sz : nat) (l : list R) (k : nat) : list R :=
  firstn sz (skipn (k * sz) l).

Definition blocks (count sz : nat) (l : list R) : list (list R) :=
  map (block sz l) (seq 0 count).

(** [x[:, 1:]]: in every batch entry the first channel is skipped. *)
Definition drop_first_channel (x : Tensor) : result Tensor :=
  match shape x with
  | b :: c :: sp =>
      let inner := fold_right Nat.mul 1%nat sp in
      Ok (mkTensor (b :: (c - 1)%nat :: sp)
            (List.concat (map (skipn inner) (blocks b (c * inner) (data x)))))
  | _ => Raise IndexError
  end.

(** [x.reshape(b, n, -1)]: the last size is inferred from the number of
    elements; the engine refuses when it cannot be. *)
Definition reshape_b_n (b n : nat) (x : Tensor) : result Tensor :=
  let bn := (b * n)%nat in
  if (numel x =? 0)%nat then
    if (bn =? 0)%nat then Raise RuntimeError
    else Ok (mkTensor [b; n; 0%nat] (data x))
  else if ((bn =? 0) || negb (numel x mod bn =? 0))%nat then Raise RuntimeError
  else Ok (mkTensor [b; n; (numel x / bn)%nat] (data x)).

(** Elementwise binary operation on two tensors of one shape. *)
Definition map2 (f : R -> R -> R) (xs ys : list R) : list R :=
  map (fun xy => f (fst xy) (snd xy)) (combine xs ys).

Definition sum (l : list R) : R := fold_right Rplus 0 l.

(** [torch.mean] of the listed elements, of which there is at least one
    wherever [forward] takes it: see [torch_mean_last_dim] for the mean of
    line 150. *)
Definition mean (l : list R) : R := sum l / INR (length l).

(** [w[None, :, None].expand((b, -1, v))], in row-major order. *)
Definition expand_class_weight (b v : nat) (w : list R) : list R :=
  List.concat (repeat (flat_map (fun c => repeat c v) w) b).

(** A zero-dimensional tensor. *)
Definition scalar (x : R) : Tensor := mkTensor [] [x].

(** ** monai.utils.LossReduction *)

(** Modelled from the spec: the enumeration [LossReduction] of
    [monai.utils] is not among the sources; the reduction modes are
    [{none, mean, sum}], with the values named in the docstring of
    [FocalLoss.__init__] and in the message of line 158. *)
Inductive LossReduction : Type := NONE | MEAN | SUM.

Definition LossReduction_value (r : LossReduction) : string :=
  match r with
  | NONE => "none"
  | MEAN => "mean"
  | SUM => "sum"
  end.

(** The constructor argument is [Union[LossReduction, str]]. *)
Inductive ReductionArg : Type :=
| ByMember (r : LossReduction)
| ByValue (s : string).

(** [LossReduction(x)]: look-up of a member by value, as every Python
    [Enum] does it; a member is returned as it is. *)
Definition LossReduction_call (x : ReductionArg) : result LossReduction :=
  match x with
  | ByMember r => Ok r
  | ByValue s =>
      if (s =? LossReduction_value NONE)%string then Ok NONE
      else if (s =? LossReduction_value MEAN)%string then Ok MEAN
      else if (s =? LossReduction_value SUM)%string then Ok SUM
      else Raise (ValueError ("'" ++ s ++ "' is not a valid LossReduction")%string)
  end.

(** ** class FocalLoss *)

(** *** The numbers of the weight tensor *)

(** A Python float is a binary64 number, written here as the [spec_float]
    of the Standard Library; [py_float m e] is the float nearest to
    [m * 2^e]. *)
Definition py_float (m e : Z) : spec_float := binary_normalize 53 1024 m e false.

(** [torch.as_tensor] stores a Python float in the default floating-point
    type, float32: the conversion rounds to the nearest float32, to Inf
    beyond its range. *)
Definition to_float32 (x : spec_float) : spec_float :=
  match x with
  | S754_finite s m e => binary_round 24 128 s m e
  | _ => x
  end.

Definition is_nan (x : spec_float) : bool :=
  match x with
  | S754_nan => true
  | _ => false
  end.

Definition is_finite (x : spec_float) : bool :=
  match x with
  | S754_zero _ | S754_finite _ _ _ => true
  | _ => false
  end.

(** [x < 0] on a float: false for NaN and for both zeros. *)
Definition float_lt_0 (x : spec_float) : bool := SFltb x (S754_zero false).

(** The minimum of two floats as [torch.min] takes it: NaN if one is. *)
Definition float_min (a b : spec_float) : spec_float :=
  if is_nan a || is_nan b then S754_nan
  else if SFltb b a then b else a.

(** The real number a finite float is. *)
Definition float_value (x : spec_float) : R :=
  match x with
  | S754_finite s m e =>
      (if s then - IZR (Zpos m) else IZR (Zpos m)) * powerRZ 2 e
  | _ => 0
  end.

(** A Python int fits the int64 of a tensor or [torch.as_tensor] raises. *)
Definition in_int64 (z : Z) : bool :=
  ((- 2 ^ 63 <=? z) && (z <? 2 ^ 63))%Z.

(** [weight: Optional[Union[Sequence[float], float, int, torch.Tensor]]]:
    a Python float, a Python int or a sequence of Python floats.  A weight
    given as a [torch.Tensor] or as a sequence that holds ints is not
    modelled. *)
Inductive Weight : Type :=
| WFloat (x : spec_float)
| WInt (z : Z)
| WSeq (l : list spec_float).

(** The one-dimensional tensor [class_weight] of lines 128 and 130: float32
    for floats, int64 for ints. *)
Inductive WeightTensor : Type :=
| Float32 (l : list spec_float)
| Int64 (l : list Z).

Definition weight_size (cw : WeightTensor) : nat :=
  match cw with
  | Float32 l => length l
  | Int64 l => length l
  end.

(** [torch.as_tensor] on a list of Python ints: int64, and [RuntimeError]
    for an int that does not fit; the empty list gives an empty float32
    tensor. *)
Definition as_tensor_ints (l : list Z) : result WeightTensor :=
  match l with
  | [] => Ok (Float32 [])
  | _ => if forallb in_int64 l then Ok (Int64 l) else Raise RuntimeError
  end.

(** [class_weight.min() < 0], line 136; the engine refuses the minimum of
    an empty tensor. *)
Definition min_lt_0 (cw : WeightTensor) : result bool :=
  match cw with
  | Float32 [] | Int64 [] => Raise RuntimeError
  | Float32 (x :: l) => Ok (float_lt_0 (fold_right float_min x l))
  | Int64 (z :: l) => Ok (fold_right Z.min z l <? 0)%Z
  end.

(** [class_weight.to(i)], line 138, read in the reals: exact for the
    numbers of the tensor, [NonFinite] when one of them is Inf or NaN. *)
Definition weight_to_reals (cw : WeightTensor) : result (list R) :=
  match cw with
  | Float32 l => if forallb is_finite l then Ok (map float_value l) else NonFinite
  | Int64 l => Ok (map IZR l)
  end.

Record FocalLoss : Type := mkFocalLoss {
  include_background : bool;
  to_onehot_y : bool;
  gamma : R;
  weight : option Weight;
  reduction : string
}.

(** Lines 70-74. *)
Definition FocalLoss_init (include_background to_onehot_y : bool) (gamma : R)
    (weight : option Weight) (reduction : ReductionArg) : result FocalLoss :=
  match LossReduction_call reduction with
  | Ok r =>
      Ok (mkFocalLoss include_background to_onehot_y gamma weight
            (LossReduction_value r))
  | Raise e => Raise e
  | NonFinite => NonFinite
  end.

(** The defaults of the signature, lines 34-38. *)
Definition default_include_background : bool := true.
Definition default_to_onehot_y : bool := false.
Definition default_gamma : R := 2.
Definition default_reduction : ReductionArg := ByMember MEAN.

Definition with_reduction (r : string) (self : FocalLoss) : FocalLoss :=
  mkFocalLoss (include_background self) (to_onehot_y self) (gamma self)
    (weight self) r.

Definition with_to_onehot_y (f : bool) (self : FocalLoss) : FocalLoss :=
  mkFocalLoss (include_background self) f (gamma self) (weight self)
    (reduction self).

Definition with_include_background (f : bool) (self : FocalLoss) : FocalLoss :=
  mkFocalLoss f (to_onehot_y self) (gamma self) (weight self) (reduction self).

Definition with_gamma (g : R) (self : FocalLoss) : FocalLoss :=
  mkFocalLoss (include_background self) (to_onehot_y self) g (weight self)
    (reduction self).


(** *** Messages *)

Definition dquote : string := String (ascii_of_nat 34) EmptyString.

Definition msg_onehot_ignored : string :=
  "single channel prediction, `to_onehot_y=True` ignored.".

Definition msg_background_ignored : string :=
  "single channel prediction, `include_background=False` ignored.".

Definition msg_shape (target_shape input_shape : list nat) : string :=
  ("ground truth has different shape (" ++ str_Size target_shape
   ++ ") from input (" ++ str_Size input_shape ++ ")")%string.

Definition msg_unpack (got : nat) : string :=
  ("not enough values to unpack (expected 2, got " ++ str_nat got ++ ")")%string.

Definition msg_weight_length : string :=
  ("the length of the weight sequence should be the same as the number of classes. "
   ++ "If `include_background=False`, the number should not include class 0.")%string.

Definition msg_weight_range : string :=
  "the value/values of weights should be no less than 0.".

Definition msg_reduction (r : string) : string :=
  ("Unsupported reduction: " ++ r ++ ", available options are ["
   ++ dquote ++ "mean" ++ dquote ++ ", "
   ++ dquote ++ "sum" ++ dquote ++ ", "
   ++ dquote ++ "none" ++ dquote ++ "].")%string.

(** Elementwise operations on whole tensors; the operands of a binary one
    have the same shape wherever [forward] applies it. *)
Definition tmap (f : R -> R) (x : Tensor) : Tensor :=
  mkTensor (shape x) (map f (data x)).

Definition tmap2 (f : R -> R -> R) (x y : Tensor) : Tensor :=
  mkTensor (shape x) (map2 f (data x) (data y)).

(** [torch.mean(x, dim=-1)] *)
Definition mean_last_dim (x : Tensor) : Tensor :=
  let outer := removelast (shape x) in
  mkTensor outer
    (map mean (blocks (fold_right Nat.mul 1%nat outer) (last (shape x) 1%nat) (data x))).

(** [b, n = s] for a tuple [s] of at most two sizes. *)
Definition unpack2 (s : list nat) : result (nat * nat) :=
  match s with
  | [b; n] => Ok (b, n)
  | _ => Raise (ValueError (msg_unpack (length s)))
  end.

Section Forward.

(** [monai.networks.one_hot(labels, num_classes)] is not among the sources:
    [forward] is read for an arbitrary one. *)
Variable one_hot : Tensor -> nat -> result Tensor.

(** Lines 93-107: the optional one-hot expansion of [target] and the
    optional removal of channel 0; yields [(input, target)]. *)
Definition preprocess (self : FocalLoss) (input target : Tensor)
  : M (Tensor * Tensor) :=
  n_pred_ch <- lift (shape_at input 1) ;;
  target <- (if to_onehot_y self then
               if (n_pred_ch =? 1)%nat then
                 warn msg_onehot_ignored ;;; ret target
               else lift (one_hot target n_pred_ch)
             else ret target) ;;
  if negb (include_background self) then
    if (n_pred_ch =? 1)%nat then
      warn msg_background_ignored ;;; ret (input, target)
    else
      target <- lift (drop_first_channel target) ;;
      input <- lift (drop_first_channel input) ;;
      ret (input, target)
  else ret (input, target).

(** Lines 109-118: the shape check and the reshape to [B x N x num_voxels];
    yields [(i, t)]. *)
Definition flatten (input target : Tensor) : M (Tensor * Tensor) :=
  if negb (shape_eqb (shape target) (shape input)) then
    raise (ValueError (msg_shape (shape target) (shape input)))
  else
    let i := input in
    let t := target in
    '(b, n) <- lift (unpack2 (firstn 2 (shape t))) ;;
    i <- lift (reshape_b_n b n i) ;;
    t <- lift (reshape_b_n b n t) ;;
    ret (i, t).

(** Lines 122-123. *)
Definition cross_entropy (i t : Tensor) : Tensor := tmap2 Elem.ce i t.

(** Lines 126-135: the tensor of the class weights. *)
Definition class_weight_of (w : Weight) (i : Tensor) : M WeightTensor :=
  match w with
  | WFloat x =>
      n <- lift (shape_at i 1) ;;
      ret (Float32 (repeat (to_float32 x) n))
  | WInt z =>
      n <- lift (shape_at i 1) ;;
      lift (as_tensor_ints (repeat z n))
  | WSeq l =>
      let class_weight := Float32 (map to_float32 l) in
      n <- lift (shape_at i 1) ;;
      if negb (weight_size class_weight =? n)%nat
      then raise (ValueError msg_weight_length)
      else ret class_weight
  end.

(** Lines 125-145. *)
Definition apply_weight (self : FocalLoss) (i t ce : Tensor) : M Tensor :=
  match weight self with
  | None => ret ce
  | Some w =>
      class_weight <- class_weight_of w i ;;
      negative <- lift (min_lt_0 class_weight) ;;
      if negative then raise (ValueError msg_weight_range)
      else
        class_weight <- lift (weight_to_reals class_weight) ;;
        b <- lift (shape_at t 0) ;;
        v <- lift (shape_at t 2) ;;
        let at_ := mkTensor [b; length class_weight; v]
                     (expand_class_weight b v class_weight) in
        ret (tmap2 Rmult ce at_)
  end.

(** Lines 149-150: the tensor [(p * self.gamma).exp() * ce], and its mean
    over the last axis. *)
Definition focal_terms (self : FocalLoss) (i t ce : Tensor) : Tensor :=
  let p := tmap2 Elem.p i t in
  tmap2 Rmult (tmap (fun x => exp (x * gamma self)) p) ce.

Definition focal_mean (self : FocalLoss) (i t ce : Tensor) : Tensor :=
  mean_last_dim (focal_terms self i t ce).

(** The mean of line 150 over an axis of no voxel at all is NaN. *)
Definition torch_mean_last_dim (x : Tensor) : result Tensor :=
  if (last (shape x) 1%nat =? 0)%nat then NonFinite else Ok (mean_last_dim x).

(** Lines 152-158. *)
Definition reduce (self : FocalLoss) (loss : Tensor) : M Tensor :=
  if (reduction self =? LossReduction_value SUM)%string then
    ret (scalar (sum (data loss)))
  else if (reduction self =? LossReduction_value NONE)%string then
    ret loss
  else if (reduction self =? LossReduction_value MEAN)%string then
    ret (scalar (mean (data loss)))
  else raise (ValueError (msg_reduction (reduction self))).

(** Lines 93-150: everything before the final reduction. *)
Definition voxel_loss (self : FocalLoss) (input target : Tensor) : M Tensor :=
  '(input, target) <- preprocess self input target ;;
  '(i, t) <- flatten input target ;;
  let ce := cross_entropy i t in
  ce <- apply_weight self i t ce ;;
  lift (torch_mean_last_dim (focal_terms self i t ce)).

(** [FocalLoss.forward], lines 76-158. *)
Definition forward (self : FocalLoss) (input target : Tensor) : M Tensor :=
  loss <- voxel_loss self input target ;;
  reduce self loss.

(** What [forward] does after [preprocess]; no flag is read any more. *)
Definition after_preprocess (self : FocalLoss) (input target : Tensor) : M Tensor :=
  '(i, t) <- flatten input target ;;
  ce <- apply_weight self i t (cross_entropy i t) ;;
  loss <- lift (torch_mean_last_dim (focal_terms self i t ce)) ;;
  reduce self loss.


End Forward.

(** ** An instance of [one_hot], for running [forward] on examples *)

(** Modelled from the spec: [monai.networks.one_hot] is not among the
    sources; "given an integer-class-index tensor and a target channel
    count, returns a one-hot tensor with that many channels".  The
    class-index tensor has shape [[B, 1, *spatial]]. *)
Definition one_hot_ref (labels : Tensor) (num_classes : nat) : result Tensor :=
  match shape labels with
  | b :: 1%nat :: sp =>
      let inner := fold_right Nat.mul 1%nat sp in
      Ok (mkTensor (b :: num_classes :: sp)
            (List.concat
               (map (fun blk =>
                       flat_map
                         (fun c => map (fun x => if Req_dec_T x (INR c) then 1 else 0) blk)
                         (seq 0 num_classes))
                    (blocks b inner (data labels)))))
  | _ => Raise (AssertionError "labels should have a channel with length equal to one.")
  end.

(** ** The configured weights, read off the configuration *)

(** The weight tensor a configured [weight] is stored as, for [n] classes
    to score, and the weight it holds for class [c], as a real number. *)
Definition stored_weight (w : Weight) (n : nat) : WeightTensor :=
  match w with
  | WFloat x => Float32 (repeat (to_float32 x) n)
  | WInt z => Int64 (repeat z n)
  | WSeq l => Float32 (map to_float32 l)
  end.

Definition weight_of_class (w : Weight) (c : nat) : R :=
  match w with
  | WFloat x => float_value (to_float32 x)
  | WInt z => IZR z
  | WSeq l => float_value (to_float32 (nth c l (S754_zero false)))
  end.

Definition has_nan (cw : WeightTensor) : bool :=
  match cw with
  | Float32 l => existsb is_nan l
  | Int64 _ => false
  end.

Definition has_negative (cw : WeightTensor) : bool :=
  match cw with
  | Float32 l => existsb float_lt_0 l
  | Int64 l => existsb (fun z => z <? 0)%Z l
  end.

Definition all_finite (cw : WeightTensor) : bool :=
  match cw with
  | Float32 l => forallb is_finite l
  | Int64 _ => true
  end.

(** ** The weighted binary cross entropy with logits *)

(** The loss the focal loss is compared with for [gamma = 0]: for the
    logits [xs] and labels [ts] of a tensor of shape [[B, N, V]] in row-major
    order, the entry at position [k] of the [[B, N]] result is the mean over
    the [V] voxels of [w * -(t*log(sigmoid(x)) + (1-t)*log(1-sigmoid(x)))],
    [w] being the weight of the class. *)
Definition bce_with_logits (w x t : R) : R :=
  w * - (t * ln (Elem.sigmoid x) + (1 - t) * ln (1 - Elem.sigmoid x)).

Definition weighted_bce_entry (w : R) (xs ts : list R) (v k : nat) : R :=
  fold_right Rplus 0
    (map (fun j => bce_with_logits w (nth (k * v + j) xs 0) (nth (k * v + j) ts 0))
       (seq 0 v))
  / INR v.

Definition class_weight_or_one (self : FocalLoss) (c : nat) : R :=
  match weight self with
  | None => 1
  | Some w => weight_of_class w c
  end.

(** ** Tensors and configurations for concrete runs *)

Definition logits_1x1x2 : Tensor := mkTensor [1; 1; 2]%nat [1; -3].
Definition labels_1x1x2 : Tensor := mkTensor [1; 1; 2]%nat [1; 0].

Definition fl_default : FocalLoss := mkFocalLoss true false 2 None "mean".

Definition pred_1x2x1 : Tensor := mkTensor [1; 2; 1]%nat [0; 1].
Definition grnd_1x1x1 : Tensor := mkTensor [1; 1; 1]%nat [1].

Definition grnd_1x2x1 : Tensor := mkTensor [1; 2; 1]%nat [0; 1].

Definition fl_weighted (w : Weight) : FocalLoss :=
  mkFocalLoss true false 2 (Some w) "mean".

Definition weight_2_3 : Weight := WSeq [py_float 2 0; py_float 3 0].

Definition ce_weighted_2_3 : Tensor :=
  tmap2 Rmult (cross_entropy pred_1x2x1 grnd_1x2x1)
    (mkTensor [1; 2; 1]%nat
       [float_value (to_float32 (py_float 2 0));
        float_value (to_float32 (py_float 3 0))]).

Definition fl_foreground_none : FocalLoss := mkFocalLoss false false 2 None "none".

Definition pred_1d : Tensor := mkTensor [3]%nat [0; 1; 2].
Definition pred_0x2x3 : Tensor := mkTensor [0; 2; 3]%nat [].
Definition pred_1x3x1 : Tensor := mkTensor [1; 3; 1]%nat [5; 0; 1].
Definition grnd_1x3x1 : Tensor := mkTensor [1; 3; 1]%nat [1; 0; 1].

(** The call of the docstring of [__init__], lines 64-67. *)
Definition pred_doc : Tensor := mkTensor [3; 2]%nat [1; 0; 0; 1; 1; 0].
Definition grnd_doc : Tensor := mkTensor [3; 1]%nat [0; 1; 0].
Definition fl_doc : FocalLoss := mkFocalLoss true true 2 None "mean".

(** ** Facts on the elementwise primitives *)

Section ElemFacts.
Import Elem.

Lemma one_plus_exp_pos (x : R) : 0 < 1 + exp x.
Proof. pose proof (exp_pos x); lra. Qed.



Lemma ln_sigmoid (x : R) : ln (sigmoid x) = - ln (1 + exp (- x)).
Proof.
  unfold sigmoid, Rdiv. rewrite Rmult_1_l.
  apply ln_Rinv, one_plus_exp_pos.
Qed.

Lemma one_minus_sigmoid (x : R) : 1 - sigmoid x = exp (- x) / (1 + exp (- x)).
Proof.
  unfold sigmoid. pose proof (exp_pos (- x)). field. lra.
Qed.

Lemma ln_one_minus_sigmoid (x : R) :
  ln (1 - sigmoid x) = - x - ln (1 + exp (- x)).
Proof.
  rewrite one_minus_sigmoid. unfold Rdiv.
  rewrite ln_mult.
  - rewrite ln_exp, ln_Rinv by apply one_plus_exp_pos. lra.
  - apply exp_pos.
  - apply Rinv_0_lt_compat, one_plus_exp_pos.
Qed.

(** The shift by [max_val] cancels: the stable sum is [ln (1 + exp (-i))]. *)
Lemma stable_softplus (i : R) :
  max_val i + ln (exp (- max_val i) + exp (- i - max_val i))
  = ln (1 + exp (- i)).
Proof.
  set (m := max_val i).
  replace (exp (- m) + exp (- i - m)) with (exp (- m) * (1 + exp (- i))).
  - rewrite ln_mult by (apply exp_pos || apply one_plus_exp_pos).
    rewrite ln_exp. lra.
  - unfold Rminus. rewrite (exp_plus (- i) (- m)). ring.
Qed.

Lemma ce_softplus (i t : R) : ce i t = i - i * t + ln (1 + exp (- i)).
Proof.
  unfold ce. rewrite <- (stable_softplus i). lra.
Qed.

Lemma ce_eq_reference (i t : R) : ce i t = ce_reference i t.
Proof.
  rewrite ce_softplus. unfold ce_reference.
  rewrite ln_sigmoid, ln_one_minus_sigmoid. ring.
Qed.

(** Why the formula is called stable: no exponential is taken of a
    positive number, and the logarithm is taken of a number in [(1, 2]]. *)
Lemma ce_exponents_nonpos (i : R) :
  - max_val i <= 0 /\ - i - max_val i <= 0
  /\ 1 < exp (- max_val i) + exp (- i - max_val i) <= 2.
Proof.
  unfold max_val, clamp_min.
  pose proof (Rmax_l (- i) 0) as Hl. pose proof (Rmax_r (- i) 0) as Hr.
  set (m := Rmax (- i) 0) in *.
  assert (Ha : - m <= 0) by lra. assert (Hb : - i - m <= 0) by lra.
  assert (He : forall x, x <= 0 -> exp x <= 1).
  { intros x [Hx | ->]; [| rewrite exp_0; lra].
    apply Rlt_le. rewrite <- exp_0. now apply exp_increasing. }
  pose proof (exp_pos (- m)). pose proof (exp_pos (- i - m)).
  pose proof (He _ Ha). pose proof (He _ Hb).
  repeat split; try lra.
  unfold m, Rmax. destruct (Rle_dec (- i) 0) as [Hi | Hi].
  - replace (- 0) with 0 by ring. rewrite exp_0.
    pose proof (exp_pos (- i - 0)). lra.
  - replace (- i - - i) with 0 by ring. rewrite exp_0.
    pose proof (exp_pos (- - i)). lra.
Qed.




Lemma modulation_gamma_0 (i t : R) : modulation 0 i t = 1.
Proof. unfold modulation. rewrite Rmult_0_r. apply exp_0. Qed.

End ElemFacts.

(** ** The monad *)

Lemma bind_Ok {A B} (m : M A) (f : A -> M B) w a :
  m = (w, Ok a) -> bind m f = (w ++ fst (f a), snd (f a)).
Proof. intros ->. unfold bind. now destruct (f a). Qed.

Lemma bind_Raise {A B} (m : M A) (f : A -> M B) w e :
  m = (w, Raise e) -> bind m f = (w, Raise e).
Proof. now intros ->. Qed.

Lemma bind_Ok_inv {A B} (m : M A) (f : A -> M B) w b :
  bind m f = (w, Ok b) ->
  exists w1 a w2, m = (w1, Ok a) /\ f a = (w2, Ok b) /\ w = w1 ++ w2.
Proof.
  destruct m as [w1 [a | e |]]; simpl; [| discriminate | discriminate].
  destruct (f a) as [w2 r] eqn:E. intros [= <- ->].
  now exists w1, a, w2.
Qed.

Lemma bind_Raise_inv {A B} (m : M A) (f : A -> M B) w e :
  bind m f = (w, Raise e) ->
  m = (w, Raise e) \/
  exists w1 a w2, m = (w1, Ok a) /\ f a = (w2, Raise e) /\ w = w1 ++ w2.
Proof.
  destruct m as [w1 [a | e1 |]]; simpl.
  - destruct (f a) as [w2 r] eqn:E. intros [= <- ->].
    right. now exists w1, a, w2.
  - intros [= <- <-]. now left.
  - discriminate.
Qed.

Lemma bind_lift_Ok {A B} (r : result A) (f : A -> M B) a :
  r = Ok a -> bind (lift r) f = f a.
Proof. intros ->. unfold bind, lift. now destruct (f a). Qed.

Lemma bind_ret {A B} (a : A) (f : A -> M B) : bind (ret a) f = f a.
Proof. unfold bind, ret. now destruct (f a). Qed.

Lemma bind_assoc {A B C} (m : M A) (f : A -> M B) (g : B -> M C) :
  bind (bind m f) g = bind m (fun a => bind (f a) g).
Proof.
  destruct m as [w [a | e |]]; simpl; [| reflexivity | reflexivity].
  destruct (f a) as [w1 [b | e1 |]]; simpl; [| reflexivity | reflexivity].
  destruct (g b) as [w2 r]. now rewrite app_assoc.
Qed.

(** ** Lists of elements *)

Lemma map2_length f xs ys :
  length (map2 f xs ys) = Nat.min (length xs) (length ys).
Proof. unfold map2. now rewrite length_map, length_combine. Qed.

Lemma map2_nth f xs ys k :
  (k < length xs)%nat -> (k < length ys)%nat ->
  nth k (map2 f xs ys) 0 = f (nth k xs 0) (nth k ys 0).
Proof.
  unfold map2. revert ys k.
  induction xs as [| x xs IH]; intros [| y ys] [| k]; simpl; intros Hx Hy;
    try lia; [reflexivity | apply IH; lia].
Qed.

(** ** The cross-entropy term *)

(** C1: every element of the tensor [ce] of lines 122-123 is the stable
    expression [i - i*t + max_val + log(exp(-max_val) + exp(-i - max_val))]
    with [max_val = max(-i, 0)] of the logit [i] and the label [t] at that
    position, and for a label in [[0,1]] it equals the reference
    [-(t*log(sigmoid(i)) + (1-t)*log(1-sigmoid(i)))]. *)
Theorem ce_stable_formula_is_reference (i t : Tensor) (k : nat) :
  (k < length (data i))%nat -> (k < length (data t))%nat ->
  0 <= nth k (data t) 0 <= 1 ->
  let x := nth k (data i) 0 in
  let y := nth k (data t) 0 in
  let max_val := Rmax (- x) 0 in
  nth k (data (cross_entropy i t)) 0
    = x - x * y + max_val + ln (exp (- max_val) + exp (- x - max_val))
  /\ nth k (data (cross_entropy i t)) 0
    = - (y * ln (Elem.sigmoid x) + (1 - y) * ln (1 - Elem.sigmoid x)).
Proof.
  intros Hi Ht _ x y max_val.
  assert (E : nth k (data (cross_entropy i t)) 0 = Elem.ce x y).
  { unfold cross_entropy, tmap2. simpl. now apply map2_nth. }
  split; rewrite E.
  - reflexivity.
  - apply ce_eq_reference.
Qed.

Lemma ce_stable_formula_is_reference_witness :
  nth 1 (data (cross_entropy logits_1x1x2 labels_1x1x2)) 0
    = -3 - -3 * 0 + Rmax (- -3) 0
      + ln (exp (- Rmax (- -3) 0) + exp (- -3 - Rmax (- -3) 0))
  /\ nth 1 (data (cross_entropy logits_1x1x2 labels_1x1x2)) 0
    = - (0 * ln (Elem.sigmoid (-3)) + (1 - 0) * ln (1 - Elem.sigmoid (-3))).
Proof.
  apply (ce_stable_formula_is_reference logits_1x1x2 labels_1x1x2 1);
    simpl; lra || lia.
Defined.

(** ** Facts on [forward] *)

Lemma shape_eqb_false s1 s2 : s1 <> s2 -> shape_eqb s1 s2 = false.
Proof. intros H. unfold shape_eqb. now destruct (list_eq_dec Nat.eq_dec s1 s2). Qed.

Lemma shape_eqb_true s1 s2 : shape_eqb s1 s2 = true -> s1 = s2.
Proof. unfold shape_eqb. now destruct (list_eq_dec Nat.eq_dec s1 s2). Qed.

(** With a reduction [__init__] can have stored, [reduce] returns. *)
Lemma reduce_returns (self : FocalLoss) (r : LossReduction) (loss : Tensor) :
  reduction self = LossReduction_value r ->
  exists out, reduce self loss = ([], Ok out).
Proof.
  intros E. unfold reduce. rewrite E. destruct r; simpl; eexists; reflexivity.
Qed.

Lemma init_reduction ib oh g w r self :
  FocalLoss_init ib oh g w r = Ok self ->
  exists m, LossReduction_call r = Ok m /\ reduction self = LossReduction_value m.
Proof.
  unfold FocalLoss_init. destruct (LossReduction_call r) as [m | e |];
    [| discriminate | discriminate].
  intros [= <-]. now exists m.
Qed.

Section ForwardFacts.

Variable one_hot : Tensor -> nat -> result Tensor.

(** C4: when the shapes of the two tensors differ after the preprocessing
    of lines 93-107, [forward] raises the [ValueError] of line 110, whose
    message prints both shapes, and returns no loss. *)
Theorem shape_mismatch_raises (self : FocalLoss) (input target : Tensor)
    (w : list string) (input' target' : Tensor) :
  preprocess one_hot self input target = (w, Ok (input', target')) ->
  shape target' <> shape input' ->
  forward one_hot self input target
  = (w, Raise (ValueError
                 ("ground truth has different shape (" ++ str_Size (shape target')
                  ++ ") from input (" ++ str_Size (shape input') ++ ")")%string)).
Proof.
  intros Hpre Hne. unfold forward, voxel_loss.
  rewrite Hpre. simpl. unfold flatten.
  rewrite (shape_eqb_false _ _ Hne). simpl.
  now rewrite app_nil_r.
Qed.

(** Lines 95-107 on a single-channel prediction: both tensors come back as
    they are, with one warning for each flag that is set. *)
Lemma preprocess_single_channel (self : FocalLoss) (input target : Tensor) :
  shape_at input 1 = Ok 1%nat ->
  preprocess one_hot self input target
  = ((if to_onehot_y self then [msg_onehot_ignored] else [])
     ++ (if include_background self then [] else [msg_background_ignored]),
     Ok (input, target)).
Proof.
  intros H1. unfold preprocess. rewrite H1.
  destruct (to_onehot_y self), (include_background self); reflexivity.
Qed.

Lemma forward_after_preprocess (self : FocalLoss) (input target : Tensor) :
  forward one_hot self input target
  = ('(input', target') <- preprocess one_hot self input target ;;
     after_preprocess self input' target').
Proof.
  unfold forward, voxel_loss, after_preprocess.
  destruct (preprocess one_hot self input target) as [w [[i' t'] | e |]];
    simpl; [| reflexivity | reflexivity].
  destruct (flatten i' t') as [w1 [[i t] | e |]]; simpl;
    [| reflexivity | reflexivity].
  destruct (apply_weight self i t (cross_entropy i t)) as [w2 [ce | e |]];
    simpl; [| reflexivity | reflexivity].
  destruct (torch_mean_last_dim (focal_terms self i t ce)) as [loss | e |];
    simpl; rewrite ?app_nil_r; [| reflexivity | reflexivity].
  destruct (reduce self loss) as [w3 r].
  now rewrite <- !app_assoc.
Qed.

Lemma forward_single_channel (self : FocalLoss) (input target : Tensor) :
  shape_at input 1 = Ok 1%nat ->
  snd (forward one_hot self input target)
  = snd (after_preprocess self input target).
Proof.
  intros H1. rewrite forward_after_preprocess.
  rewrite (preprocess_single_channel self input target H1). simpl.
  now destruct (after_preprocess self input target).
Qed.

(** C6: on a single-channel prediction, [to_onehot_y=True] and
    [include_background=False] raise nothing of their own: preprocessing
    returns both tensors unchanged and emits one warning for each of the two
    settings, and what [forward] returns or raises is what it returns or
    raises with the flag at its default. *)
Theorem single_channel_flags_ignored (self : FocalLoss) (input target : Tensor) :
  shape_at input 1 = Ok 1%nat ->
  preprocess one_hot self input target
  = ((if to_onehot_y self then [msg_onehot_ignored] else [])
     ++ (if include_background self then [] else [msg_background_ignored]),
     Ok (input, target))
  /\ snd (forward one_hot (with_to_onehot_y true self) input target)
     = snd (forward one_hot (with_to_onehot_y default_to_onehot_y self) input target)
  /\ snd (forward one_hot (with_include_background false self) input target)
     = snd (forward one_hot (with_include_background default_include_background self)
              input target).
Proof.
  intros H1. split; [now apply preprocess_single_channel |].
  split; rewrite !forward_single_channel by assumption; reflexivity.
Qed.

(** C9: in an instance built by [__init__] the reduction is one of
    ["none"], ["mean"], ["sum"]; the final reduction then always returns,
    so an exception of [forward] is one raised before line 152, never the
    one of line 158. *)
Theorem unsupported_reduction_unreachable (ib oh : bool) (g : R)
    (w : option Weight) (r : ReductionArg) (self : FocalLoss) :
  FocalLoss_init ib oh g w r = Ok self ->
  (reduction self = "none"%string \/ reduction self = "mean"%string
   \/ reduction self = "sum"%string)
  /\ (forall loss, exists out, reduce self loss = ([], Ok out))
  /\ (forall input target ws e,
        forward one_hot self input target = (ws, Raise e) ->
        voxel_loss one_hot self input target = (ws, Raise e)).
Proof.
  intros Hinit. destruct (init_reduction _ _ _ _ _ _ Hinit) as [m [_ Hm]].
  split; [destruct m; simpl in Hm; auto |].
  split; [intros loss; now apply reduce_returns with m |].
  intros input target ws e. unfold forward. intros H.
  apply bind_Raise_inv in H. destruct H as [H | [w1 [loss [w2 [_ [H _]]]]]]; [exact H |].
  destruct (reduce_returns self m loss Hm) as [out Hout]. congruence.
Qed.

End ForwardFacts.

Lemma unsupported_reduction_unreachable_witness :
  (reduction (mkFocalLoss true false 2 None "sum") = "none"%string
   \/ reduction (mkFocalLoss true false 2 None "sum") = "mean"%string
   \/ reduction (mkFocalLoss true false 2 None "sum") = "sum"%string)
  /\ (forall loss, exists out,
        reduce (mkFocalLoss true false 2 None "sum") loss = ([], Ok out))
  /\ (forall input target ws e,
        forward one_hot_ref (mkFocalLoss true false 2 None "sum") input target
        = (ws, Raise e) ->
        voxel_loss one_hot_ref (mkFocalLoss true false 2 None "sum") input target
        = (ws, Raise e)).
Proof.
  apply (unsupported_reduction_unreachable one_hot_ref true false 2 None (ByValue "sum")).
  reflexivity.
Defined.

Lemma shape_mismatch_raises_witness :
  forward one_hot_ref fl_default pred_1x2x1 grnd_1x1x1
  = ([], Raise (ValueError
       "ground truth has different shape (torch.Size([1, 1, 1])) from input (torch.Size([1, 2, 1]))")).
Proof.
  apply (shape_mismatch_raises one_hot_ref fl_default pred_1x2x1 grnd_1x1x1
           [] pred_1x2x1 grnd_1x1x1).
  - reflexivity.
  - discriminate.
Defined.

Lemma single_channel_flags_ignored_witness :
  preprocess one_hot_ref (mkFocalLoss false true 2 None "mean")
    logits_1x1x2 labels_1x1x2
  = ([msg_onehot_ignored; msg_background_ignored],
     Ok (logits_1x1x2, labels_1x1x2))
  /\ snd (forward one_hot_ref
            (with_to_onehot_y true (mkFocalLoss false true 2 None "mean"))
            logits_1x1x2 labels_1x1x2)
     = snd (forward one_hot_ref
              (with_to_onehot_y false (mkFocalLoss false true 2 None "mean"))
              logits_1x1x2 labels_1x1x2)
  /\ snd (forward one_hot_ref
            (with_include_background false (mkFocalLoss false true 2 None "mean"))
            logits_1x1x2 labels_1x1x2)
     = snd (forward one_hot_ref
              (with_include_background true (mkFocalLoss false true 2 None "mean"))
              logits_1x1x2 labels_1x1x2).
Proof.
  apply (single_channel_flags_ignored one_hot_ref
           (mkFocalLoss false true 2 None "mean") logits_1x1x2 labels_1x1x2).
  reflexivity.
Defined.

(** ** The reduction *)

Lemma voxel_loss_reduction (one_hot : Tensor -> nat -> result Tensor)
    (r : string) (self : FocalLoss) (input target : Tensor) :
  voxel_loss one_hot (with_reduction r self) input target
  = voxel_loss one_hot self input target.
Proof. reflexivity. Qed.

Lemma forward_none (one_hot : Tensor -> nat -> result Tensor)
    (self : FocalLoss) (input target : Tensor) :
  forward one_hot (with_reduction "none" self) input target
  = voxel_loss one_hot self input target.
Proof.
  unfold forward. rewrite voxel_loss_reduction.
  destruct (voxel_loss one_hot self input target) as [w [loss | e |]]; simpl;
    [now rewrite app_nil_r | reflexivity | reflexivity].
Qed.

(** C3: when [forward] returns the tensor [loss] under ["none"], it returns
    under ["sum"] the scalar that is the sum of the elements of [loss], and
    under ["mean"] the scalar that is their sum divided by their number. *)
Theorem sum_and_mean_of_none (one_hot : Tensor -> nat -> result Tensor)
    (self : FocalLoss) (input target : Tensor) (w : list string) (loss : Tensor) :
  forward one_hot (with_reduction "none" self) input target = (w, Ok loss) ->
  forward one_hot (with_reduction "sum" self) input target
  = (w, Ok (scalar (fold_right Rplus 0 (data loss))))
  /\ forward one_hot (with_reduction "mean" self) input target
  = (w, Ok (scalar (fold_right Rplus 0 (data loss) / INR (length (data loss))))).
Proof.
  rewrite forward_none. intros H. unfold forward.
  rewrite !voxel_loss_reduction, H. simpl. now rewrite app_nil_r.
Qed.

Lemma sum_and_mean_of_none_witness :
  let loss := focal_mean fl_default logits_1x1x2 labels_1x1x2
                (cross_entropy logits_1x1x2 labels_1x1x2) in
  forward one_hot_ref (with_reduction "sum" fl_default) logits_1x1x2 labels_1x1x2
  = ([], Ok (scalar (fold_right Rplus 0 (data loss))))
  /\ forward one_hot_ref (with_reduction "mean" fl_default) logits_1x1x2 labels_1x1x2
  = ([], Ok (scalar (fold_right Rplus 0 (data loss) / INR (length (data loss))))).
Proof.
  apply (sum_and_mean_of_none one_hot_ref fl_default logits_1x1x2 labels_1x1x2 []).
  reflexivity.
Defined.

(** ** Blocks, broadcasting and the minimum *)

Lemma block_length (sz k : nat) (l : list R) :
  (k * sz + sz <= length l)%nat -> length (block sz l k) = sz.
Proof.
  intros H. unfold block. rewrite length_firstn, length_skipn. lia.
Qed.

Lemma blocks_length (count sz : nat) (l : list R) :
  length (blocks count sz l) = count.
Proof. unfold blocks. now rewrite length_map, length_seq. Qed.

Lemma map_seq_nth {A} (f : nat -> A) (count k : nat) (d : A) :
  (k < count)%nat -> nth k (map f (seq 0 count)) d = f k.
Proof.
  intros H. rewrite (nth_indep _ d (f 0%nat)) by (now rewrite length_map, length_seq).
  rewrite map_nth, seq_nth by assumption. reflexivity.
Qed.

Lemma concat_length_const {A} (ls : list (list A)) (m : nat) :
  Forall (fun l => length l = m) ls -> length (List.concat ls) = (length ls * m)%nat.
Proof.
  induction 1 as [| l ls Hl _ IH]; simpl; [reflexivity |].
  rewrite length_app, IH, Hl. reflexivity.
Qed.

Lemma Forall_map_seq {A} (P : A -> Prop) (f : nat -> A) (count : nat) :
  (forall k, (k < count)%nat -> P (f k)) -> Forall P (map f (seq 0 count)).
Proof.
  intros H. apply Forall_forall. intros x Hx.
  apply in_map_iff in Hx. destruct Hx as [k [<- Hk]].
  apply in_seq in Hk. apply H. lia.
Qed.

Lemma flat_map_repeat_length (v : nat) (w : list R) :
  length (flat_map (fun c => repeat c v) w) = (length w * v)%nat.
Proof.
  induction w as [| x w IH]; simpl; [reflexivity |].
  rewrite length_app, repeat_length, IH. reflexivity.
Qed.

Lemma expand_class_weight_length (b v : nat) (w : list R) :
  length (expand_class_weight b v w) = (b * (length w * v))%nat.
Proof.
  unfold expand_class_weight.
  rewrite (concat_length_const _ (length w * v)).
  - now rewrite repeat_length.
  - apply Forall_forall. intros l Hl. apply repeat_spec in Hl. subst l.
    apply flat_map_repeat_length.
Qed.

Lemma flat_map_repeat_nth (v : nat) (w : list R) (c j : nat) :
  (c < length w)%nat -> (j < v)%nat ->
  nth (c * v + j) (flat_map (fun x => repeat x v) w) 0 = nth c w 0.
Proof.
  revert c. induction w as [| x w IH]; intros c Hc Hj; simpl in Hc; [lia |].
  simpl. destruct c as [| c].
  - simpl. rewrite app_nth1 by (rewrite repeat_length; lia).
    apply nth_repeat_lt. exact Hj.
  - rewrite app_nth2 by (rewrite repeat_length; simpl; lia).
    rewrite repeat_length.
    replace (S c * v + j - v)%nat with (c * v + j)%nat by (simpl; lia).
    apply IH; lia.
Qed.

Lemma concat_repeat_nth (row : list R) (b q r : nat) :
  (q < b)%nat -> (r < length row)%nat ->
  nth (q * length row + r) (List.concat (repeat row b)) 0 = nth r row 0.
Proof.
  revert q. induction b as [| b IH]; intros q Hq Hr; [lia |].
  simpl. destruct q as [| q].
  - simpl. now rewrite app_nth1.
  - rewrite app_nth2 by (simpl; lia).
    replace (S q * length row + r - length row)%nat
      with (q * length row + r)%nat by (simpl; lia).
    apply IH; lia.
Qed.

(** The weight at position [(bi, c, j)] of the expanded tensor is the
    weight of class [c]. *)
Lemma expand_class_weight_nth (b v : nat) (w : list R) (bi c j : nat) :
  (bi < b)%nat -> (c < length w)%nat -> (j < v)%nat ->
  nth ((bi * length w + c) * v + j) (expand_class_weight b v w) 0 = nth c w 0.
Proof.
  intros Hb Hc Hj. unfold expand_class_weight.
  set (row := flat_map (fun x => repeat x v) w).
  assert (Hrow : length row = (length w * v)%nat) by apply flat_map_repeat_length.
  replace ((bi * length w + c) * v + j)%nat
    with (bi * length row + (c * v + j))%nat by (rewrite Hrow; lia).
  rewrite concat_repeat_nth; [now apply flat_map_repeat_nth | exact Hb |].
  rewrite Hrow. nia.
Qed.


(** ** Well-formed tensors through the preprocessing *)

Lemma drop_first_channel_wf (x y : Tensor) :
  wf x -> drop_first_channel x = Ok y -> wf y.
Proof.
  unfold wf, drop_first_channel, numel.
  destruct (shape x) as [| b [| c sp]]; try discriminate.
  intros Hx [= <-]. simpl in *.
  set (inner := fold_right Nat.mul 1%nat sp) in *.
  unfold blocks. rewrite map_map.
  rewrite (concat_length_const _ (c * inner - inner)).
  - rewrite length_map, length_seq. nia.
  - apply Forall_map_seq. intros k Hk.
    rewrite length_skipn, block_length; [reflexivity | nia].
Qed.

Section Wf.

Variable one_hot : Tensor -> nat -> result Tensor.

(** The one-hot expansion hands out a tensor of the engine. *)
Hypothesis one_hot_wf :
  forall labels num_classes y, wf labels -> one_hot labels num_classes = Ok y -> wf y.

Lemma preprocess_wf (self : FocalLoss) (input target : Tensor) w input' target' :
  wf input -> wf target ->
  preprocess one_hot self input target = (w, Ok (input', target')) ->
  wf input' /\ wf target'.
Proof.
  intros Hi Ht H. unfold preprocess in H.
  apply bind_Ok_inv in H. destruct H as (w1 & c & w2 & _ & H & _).
  apply bind_Ok_inv in H. destruct H as (w3 & tgt & w4 & Hoh & H & _).
  assert (Htgt : wf tgt).
  { destruct (to_onehot_y self); [destruct (c =? 1)%nat |].
    - now injection Hoh as _ <-.
    - unfold lift in Hoh. injection Hoh as _ Hoh. eapply one_hot_wf; eassumption.
    - now injection Hoh as _ <-. }
  destruct (include_background self); cbn [negb] in H.
  - injection H as _ <- <-. now split.
  - destruct (c =? 1)%nat.
    + injection H as _ <- <-. now split.
    + apply bind_Ok_inv in H. destruct H as (w5 & t1 & w6 & Ht1 & H & _).
      apply bind_Ok_inv in H. destruct H as (w7 & i1 & w8 & Hi1 & H & _).
      injection H as _ <- <-. unfold lift in Ht1, Hi1.
      injection Ht1 as _ Ht1. injection Hi1 as _ Hi1.
      split; [apply (drop_first_channel_wf input) | apply (drop_first_channel_wf tgt)];
        assumption.
Qed.

End Wf.

(** ** The reshape to [B x N x num_voxels] *)

Lemma reshape_b_n_Ok (b n : nat) (x y : Tensor) :
  reshape_b_n b n x = Ok y ->
  exists v, shape y = [b; n; v] /\ data y = data x
            /\ (0 < b * n)%nat /\ numel x = (b * n * v)%nat.
Proof.
  unfold reshape_b_n.
  destruct (numel x =? 0)%nat eqn:E0.
  - apply Nat.eqb_eq in E0.
    destruct (b * n =? 0)%nat eqn:Ebn; [discriminate |].
    apply Nat.eqb_neq in Ebn. intros [= <-].
    exists 0%nat. simpl. repeat split; lia.
  - destruct (b * n =? 0)%nat eqn:Ebn; simpl; [discriminate |].
    apply Nat.eqb_neq in Ebn.
    destruct (numel x mod (b * n) =? 0)%nat eqn:Em; simpl; [| discriminate].
    apply Nat.eqb_eq in Em. intros [= <-].
    exists (numel x / (b * n))%nat. simpl. repeat split; try lia.
    apply Nat.Div0.div_exact in Em. lia.
Qed.

Lemma unpack2_firstn (s : list nat) (b n : nat) :
  unpack2 (firstn 2 s) = Ok (b, n) -> exists sp, s = b :: n :: sp.
Proof.
  destruct s as [| b' [| n' sp]]; simpl; try discriminate.
  intros [= -> ->]. now exists sp.
Qed.

Lemma flatten_Ok (input target : Tensor) (w : list string) (i t : Tensor) :
  flatten input target = (w, Ok (i, t)) ->
  w = [] /\ shape target = shape input
  /\ exists b n v sp,
       shape input = b :: n :: sp /\ v = fold_right Nat.mul 1%nat sp
       /\ shape i = [b; n; v] /\ shape t = [b; n; v]
       /\ data i = data input /\ data t = data target
       /\ (0 < b * n)%nat.
Proof.
  unfold flatten.
  destruct (shape_eqb (shape target) (shape input)) eqn:Es; cbn [negb];
    [| discriminate].
  apply shape_eqb_true in Es. intros H.
  apply bind_Ok_inv in H. destruct H as (w1 & [b n] & w2 & Hu & H & ->).
  apply bind_Ok_inv in H. destruct H as (w3 & i1 & w4 & Hi & H & ->).
  apply bind_Ok_inv in H. destruct H as (w5 & t1 & w6 & Ht & H & ->).
  injection H as <- <- <-.
  unfold lift in Hu, Hi, Ht.
  injection Hu as <- Hu. injection Hi as <- Hi. injection Ht as <- Ht.
  apply unpack2_firstn in Hu. destruct Hu as [sp Hsp]. rewrite Es in Hsp.
  apply reshape_b_n_Ok in Hi. destruct Hi as (v & Hsi & Hdi & Hbn & Hni).
  apply reshape_b_n_Ok in Ht. destruct Ht as (v' & Hst & Hdt & _ & Hnt).
  unfold numel in Hni, Hnt. rewrite Es in Hnt. rewrite Hsp in Hni, Hnt.
  simpl in Hni, Hnt.
  assert (Hv : v = fold_right Nat.mul 1%nat sp) by nia.
  assert (Hv' : v' = v) by nia.
  subst v'. repeat split; try assumption.
  exists b, n, v, sp. repeat split; assumption.
Qed.

Lemma flatten_lengths (input target : Tensor) (w : list string) (i t : Tensor)
    (b n v : nat) :
  wf input -> wf target ->
  flatten input target = (w, Ok (i, t)) ->
  shape i = [b; n; v] ->
  length (data i) = (b * n * v)%nat /\ length (data t) = (b * n * v)%nat.
Proof.
  intros Hwi Hwt H Hs. apply flatten_Ok in H.
  destruct H as (_ & Es & b' & n' & v' & sp & Hsp & Hv & Hsi & _ & Hdi & Hdt & _).
  rewrite Hs in Hsi. injection Hsi as -> -> ->.
  unfold wf, numel in Hwi, Hwt. rewrite Hdi, Hdt, Hwi, Hwt, Es, Hsp.
  simpl. rewrite <- Hv. split; lia.
Qed.

(** ** The class weights *)

Lemma float_min_lt_0 (a b : spec_float) :
  is_nan a = false -> is_nan b = false ->
  float_lt_0 (float_min a b) = float_lt_0 a || float_lt_0 b.
Proof.
  intros Ha Hb. unfold float_min. rewrite Ha, Hb. cbn [orb].
  unfold float_lt_0, SFltb.
  destruct a as [sa | sa | | sa ma ea]; try discriminate Ha;
    destruct b as [sb | sb | | sb mb eb]; try discriminate Hb;
    destruct sa, sb; cbn; try reflexivity;
    destruct (Z.compare eb ea); cbn; try reflexivity;
    destruct (Pos.compare_cont Eq mb ma); reflexivity.
Qed.

Lemma float_min_not_nan (a b : spec_float) :
  is_nan a = false -> is_nan b = false -> is_nan (float_min a b) = false.
Proof.
  intros Ha Hb. unfold float_min. rewrite Ha, Hb. cbn [orb].
  now destruct (SFltb b a).
Qed.

Lemma fold_float_min (x : spec_float) (l : list spec_float) :
  existsb is_nan (x :: l) = false ->
  is_nan (fold_right float_min x l) = false
  /\ float_lt_0 (fold_right float_min x l) = existsb float_lt_0 (x :: l).
Proof.
  cbn [existsb]. intros H. apply orb_false_elim in H. destruct H as [Hx Hl].
  induction l as [| y l IH]; cbn [fold_right existsb].
  - split; [exact Hx | now rewrite orb_false_r].
  - cbn [existsb] in Hl. apply orb_false_elim in Hl. destruct Hl as [Hy Hl].
    destruct (IH Hl) as [IHn IHlt]. split.
    + now apply float_min_not_nan.
    + rewrite float_min_lt_0, IHlt by assumption. cbn [existsb].
      now destruct (float_lt_0 y), (float_lt_0 x).
Qed.

Lemma finite_not_nan (l : list spec_float) :
  forallb is_finite l = true -> existsb is_nan l = false.
Proof.
  induction l as [| x l IH]; cbn; [reflexivity |].
  intros H. apply andb_prop in H. destruct H as [Hx Hl].
  rewrite (IH Hl). now destruct x.
Qed.

Lemma float_value_nonneg (x : spec_float) :
  float_lt_0 x = false -> 0 <= float_value x.
Proof.
  destruct x as [s | s | | s m e]; cbn; try lra.
  destruct s; cbn; [discriminate |]. intros _.
  apply Rmult_le_pos; [apply IZR_le; lia |].
  apply Rlt_le, powerRZ_lt. lra.
Qed.

Lemma fold_Zmin_neg (z : Z) (l : list Z) :
  (fold_right Z.min z l <? 0)%Z = existsb (fun y => y <? 0)%Z (z :: l).
Proof.
  cbn [existsb]. induction l as [| y l IH]; cbn [fold_right existsb].
  - now rewrite orb_false_r.
  - destruct (y <? 0)%Z eqn:Ey, (z <? 0)%Z eqn:Ez, (existsb (fun y => y <? 0)%Z l) eqn:El;
      cbn in *;
      repeat match goal with
             | H : (_ <? _)%Z = true |- _ => apply Z.ltb_lt in H
             | H : (_ <? _)%Z = false |- _ => apply Z.ltb_ge in H
             end;
      try (apply Z.ltb_lt; lia); try (apply Z.ltb_ge; lia).
Qed.

(** What line 136 decides: without NaN in the tensor, whether a weight is
    negative. *)
Lemma min_lt_0_spec (cw : WeightTensor) :
  (0 < weight_size cw)%nat ->
  exists neg, min_lt_0 cw = Ok neg
              /\ (has_nan cw = false -> neg = has_negative cw).
Proof.
  destruct cw as [[| x l] | [| z l]]; cbn [weight_size length]; try lia; intros _.
  - eexists. split; [reflexivity |]. intros Hn.
    now destruct (fold_float_min x l Hn) as [_ ->].
  - eexists. split; [reflexivity |]. intros _. apply fold_Zmin_neg.
Qed.

Lemma weight_to_reals_spec (cw : WeightTensor) :
  all_finite cw = true ->
  exists rs, weight_to_reals cw = Ok rs /\ length rs = weight_size cw.
Proof.
  destruct cw as [l | l]; cbn.
  - intros ->. eexists. split; [reflexivity | apply length_map].
  - intros _. eexists. split; [reflexivity | apply length_map].
Qed.

Lemma weight_to_reals_Ok (cw : WeightTensor) (rs : list R) :
  weight_to_reals cw = Ok rs -> all_finite cw = true.
Proof.
  destruct cw as [l | l]; cbn; [| reflexivity].
  now destruct (forallb is_finite l).
Qed.

Lemma weight_to_reals_nonneg (cw : WeightTensor) (rs : list R) :
  weight_to_reals cw = Ok rs -> has_negative cw = false ->
  Forall (fun x => 0 <= x) rs.
Proof.
  destruct cw as [l | l]; cbn.
  - destruct (forallb is_finite l); [| discriminate]. intros [= <-] Hneg.
    apply Forall_forall. intros x Hx. apply in_map_iff in Hx.
    destruct Hx as (f & <- & Hf). apply float_value_nonneg.
    destruct (float_lt_0 f) eqn:E; [| reflexivity].
    assert (existsb float_lt_0 l = true) by (apply existsb_exists; eauto).
    congruence.
  - intros [= <-] Hneg.
    apply Forall_forall. intros x Hx. apply in_map_iff in Hx.
    destruct Hx as (z & <- & Hz). apply IZR_le.
    destruct (z <? 0)%Z eqn:E; [| now apply Z.ltb_ge in E].
    assert (existsb (fun y => y <? 0)%Z l = true)
      by (apply existsb_exists; eauto).
    congruence.
Qed.


(** The tensor of lines 128 and 130, when it is built and as long as the
    classes. *)
Lemma class_weight_of_Ok (wt : Weight) (i : Tensor) (b n v : nat) (w : list string)
    (cw : WeightTensor) :
  shape i = [b; n; v] -> (0 < n)%nat ->
  class_weight_of wt i = (w, Ok cw) ->
  w = [] /\ cw = stored_weight wt n /\ weight_size cw = n
  /\ (forall l, wt = WSeq l -> length l = n).
Proof.
  intros Hs Hn. unfold class_weight_of, shape_at. rewrite Hs. cbn.
  destruct wt as [x | z | l]; cbn.
  - intros [= <- <-]. cbn. rewrite repeat_length. repeat split. discriminate.
  - destruct n as [| n]; [lia |]. cbn [repeat as_tensor_ints].
    destruct (forallb in_int64 (z :: repeat z n)); [| discriminate].
    intros [= <- <-]. cbn. rewrite repeat_length. repeat split. discriminate.
  - rewrite length_map. destruct (length l =? n)%nat eqn:E; cbn; [| discriminate].
    apply Nat.eqb_eq in E. intros [= <- <-]. cbn. rewrite length_map.
    repeat split; try assumption. now intros l' [= <-].
Qed.

Lemma class_weight_of_silent (wt : Weight) (i : Tensor) :
  fst (class_weight_of wt i) = [].
Proof.
  unfold class_weight_of, shape_at.
  destruct (nth_error (shape i) 1) as [n |]; [| now destruct wt].
  destruct wt as [x | z | l]; cbn; try reflexivity.
  now destruct (negb (length (map to_float32 l) =? n)%nat).
Qed.

Lemma stored_weight_nth (wt : Weight) (n c : nat) (rs : list R) :
  (forall l, wt = WSeq l -> length l = n) ->
  weight_to_reals (stored_weight wt n) = Ok rs -> (c < n)%nat ->
  nth c rs 0 = weight_of_class wt c.
Proof.
  intros Hl. destruct wt as [x | z | l]; cbn.
  - destruct (forallb is_finite (repeat (to_float32 x) n)); [| discriminate].
    intros [= <-] Hc. rewrite map_repeat. now apply nth_repeat_lt.
  - intros [= <-] Hc. rewrite map_repeat. now apply nth_repeat_lt.
  - destruct (forallb is_finite (map to_float32 l)); [| discriminate].
    intros [= <-] Hc. rewrite map_map.
    rewrite (nth_indep _ 0 (float_value (to_float32 (S754_zero false))))
      by (rewrite length_map, (Hl l eq_refl); exact Hc).
    apply (map_nth (fun y => float_value (to_float32 y))).
Qed.



Lemma apply_weight_accepts (self : FocalLoss) (i t ce : Tensor)
    (wt : Weight) (cw : WeightTensor) (b n v : nat) :
  weight self = Some wt -> shape i = [b; n; v] -> shape t = [b; n; v] ->
  (0 < n)%nat ->
  class_weight_of wt i = ([], Ok cw) ->
  has_negative cw = false -> all_finite cw = true ->
  exists rs,
    length rs = n
    /\ (forall c, (c < n)%nat -> nth c rs 0 = weight_of_class wt c)
    /\ Forall (fun x => 0 <= x) rs
    /\ apply_weight self i t ce
       = ([], Ok (tmap2 Rmult ce (mkTensor [b; n; v] (expand_class_weight b v rs)))).
Proof.
  intros Hw Hsi Hst Hn Hcw Hneg Hfin.
  destruct (class_weight_of_Ok wt i b n v [] cw Hsi Hn Hcw) as (_ & Hst' & Hsz & Hl).
  destruct (weight_to_reals_spec cw Hfin) as (rs & Hrs & Hlen).
  exists rs. split; [congruence |].
  split; [intros c Hc; apply (stored_weight_nth wt n c rs Hl); congruence |].
  split; [now apply (weight_to_reals_nonneg cw) |].
  unfold apply_weight. rewrite Hw, (bind_Ok _ _ [] cw Hcw). cbv beta.
  destruct (min_lt_0_spec cw) as (neg & Hmin & Hspec); [lia |].
  assert (Hnan : has_nan cw = false).
  { destruct cw as [l | l]; [now apply finite_not_nan | reflexivity]. }
  rewrite (bind_lift_Ok _ _ neg Hmin), (Hspec Hnan), Hneg.
  rewrite (bind_lift_Ok _ _ rs Hrs).
  unfold shape_at. rewrite Hst. cbn. now rewrite Hlen, Hsz.
Qed.


(** What a returning [apply_weight] has done. *)
Lemma apply_weight_Ok (self : FocalLoss) (i t ce ce' : Tensor) (w : list string)
    (b n v : nat) :
  shape i = [b; n; v] -> shape t = [b; n; v] ->
  apply_weight self i t ce = (w, Ok ce') ->
  w = []
  /\ ((weight self = None /\ ce' = ce)
      \/ exists wt cw,
           weight self = Some wt
           /\ (forall l, wt = WSeq l -> length l = n)
           /\ length cw = n
           /\ (forall c, (c < n)%nat -> nth c cw 0 = weight_of_class wt c)
           /\ Forall (fun x => 0 <= x) cw
           /\ ce' = tmap2 Rmult ce (mkTensor [b; n; v] (expand_class_weight b v cw))).
Proof.
  intros Hsi Hst. unfold apply_weight.
  destruct (weight self) as [wt |]; [| intros [= <- <-]; split; [reflexivity | now left]].
  intros H.
  apply bind_Ok_inv in H. destruct H as (w1 & cw & w2 & Hcw & H & ->).
  apply bind_Ok_inv in H. destruct H as (w3 & neg & w4 & Hmin & H & ->).
  unfold lift in Hmin. injection Hmin as <- Hmin.
  destruct neg; [discriminate H |].
  apply bind_Ok_inv in H. destruct H as (w5 & rs & w6 & Hrs & H & ->).
  unfold lift in Hrs. injection Hrs as <- Hrs.
  unfold shape_at in H. rewrite Hst in H. cbn in H. injection H as <- <-.
  pose proof (class_weight_of_silent wt i) as Hw1. rewrite Hcw in Hw1. cbn in Hw1.
  subst w1.
  assert (Hn : (0 < n)%nat).
  { destruct n as [| n]; [| lia]. exfalso.
    unfold class_weight_of, shape_at in Hcw. rewrite Hsi in Hcw. cbn in Hcw.
    destruct wt as [x | z | l]; cbn in Hcw.
    - injection Hcw as <-. discriminate Hmin.
    - injection Hcw as <-. discriminate Hmin.
    - rewrite length_map in Hcw. destruct l; cbn in Hcw; [| discriminate Hcw].
      injection Hcw as <-. discriminate Hmin. }
  destruct (class_weight_of_Ok wt i b n v [] cw Hsi Hn Hcw) as (_ & Hst' & Hsz & Hl).
  pose proof (weight_to_reals_Ok cw rs Hrs) as Hfin.
  assert (Hnan : has_nan cw = false).
  { destruct cw as [l | l]; [now apply finite_not_nan | reflexivity]. }
  destruct (min_lt_0_spec cw) as (neg & Hmin' & Hspec); [lia |].
  assert (Hneg : has_negative cw = false) by (rewrite <- (Hspec Hnan); congruence).
  destruct (weight_to_reals_spec cw Hfin) as (rs' & Hrs' & Hlen).
  assert (rs' = rs) by congruence. subst rs'.
  split; [reflexivity |]. right. exists wt, rs.
  split; [reflexivity |]. split; [exact Hl |].
  split; [congruence |].
  split; [intros c Hc; apply (stored_weight_nth wt n c rs Hl); congruence |].
  split; [now apply (weight_to_reals_nonneg cw) |].
  reflexivity.
Qed.

Lemma apply_weight_lengths (self : FocalLoss) (i t ce ce' : Tensor) (w : list string)
    (b n v : nat) :
  shape i = [b; n; v] -> shape t = [b; n; v] ->
  apply_weight self i t ce = (w, Ok ce') ->
  shape ce' = shape ce
  /\ (length (data ce) = (b * n * v)%nat -> length (data ce') = (b * n * v)%nat).
Proof.
  intros Hsi Hst H.
  destruct (apply_weight_Ok self i t ce ce' w b n v Hsi Hst H)
    as (_ & [[_ ->] | (wt & cw & _ & _ & Hlen & _ & _ & ->)]).
  - now split.
  - split; [reflexivity |]. intros Hce. simpl.
    rewrite map2_length, expand_class_weight_length, Hce, Hlen. lia.
Qed.

(** ** [forward], phase by phase *)

Lemma class_weight_of_returns (wt : Weight) (i : Tensor) (b n v : nat) :
  shape i = [b; n; v] -> (0 < n)%nat ->
  (forall l, wt = WSeq l -> length l = n) ->
  (forall z, wt = WInt z -> in_int64 z = true) ->
  class_weight_of wt i = ([], Ok (stored_weight wt n)).
Proof.
  intros Hs Hn Hl Hz. unfold class_weight_of, shape_at. rewrite Hs. cbn.
  destruct wt as [x | z | l]; cbn.
  - reflexivity.
  - destruct n as [| n]; [lia |]. cbn [repeat as_tensor_ints].
    replace (forallb in_int64 (z :: repeat z n)) with true; [reflexivity |].
    symmetry. apply forallb_forall. intros y Hy.
    assert (y = z) by (destruct Hy as [<- | Hy]; [reflexivity | now apply repeat_spec in Hy]).
    subst y. now apply Hz.
  - rewrite length_map, (Hl l eq_refl), Nat.eqb_refl. reflexivity.
Qed.

Lemma stored_weight_size (wt : Weight) (n : nat) :
  (forall l, wt = WSeq l -> length l = n) -> weight_size (stored_weight wt n) = n.
Proof.
  intros Hl. destruct wt as [x | z | l]; cbn.
  - apply repeat_length.
  - apply repeat_length.
  - rewrite length_map. now apply Hl.
Qed.

Section Phases.

Variable one_hot : Tensor -> nat -> result Tensor.

Lemma forward_phases (self : FocalLoss) (input target : Tensor)
    (w0 : list string) (input' target' i t : Tensor) :
  preprocess one_hot self input target = (w0, Ok (input', target')) ->
  flatten input' target' = ([], Ok (i, t)) ->
  forward one_hot self input target
  = (let (w', r) := (ce <- apply_weight self i t (cross_entropy i t) ;;
                     loss <- lift (torch_mean_last_dim (focal_terms self i t ce)) ;;
                     reduce self loss) in
     (w0 ++ w', r)).
Proof.
  intros Hpre Hfl. rewrite forward_after_preprocess.
  rewrite (bind_Ok _ _ w0 (input', target') Hpre). cbv beta iota.
  unfold after_preprocess.
  rewrite (bind_Ok _ _ [] (i, t) Hfl). cbv beta iota.
  now destruct (ce <- apply_weight self i t (cross_entropy i t) ;;
                loss <- lift (torch_mean_last_dim (focal_terms self i t ce)) ;;
                reduce self loss).
Qed.


End Phases.



(** ** The mean over the voxels *)

Lemma focal_terms_shape (self : FocalLoss) (i t ce : Tensor) :
  shape (focal_terms self i t ce) = shape i.
Proof. reflexivity. Qed.

Lemma voxel_loss_Ok (one_hot : Tensor -> nat -> result Tensor)
    (self : FocalLoss) (input target : Tensor) (w : list string) (loss : Tensor) :
  voxel_loss one_hot self input target = (w, Ok loss) ->
  exists input' target' i t ce,
    preprocess one_hot self input target = (w, Ok (input', target'))
    /\ flatten input' target' = ([], Ok (i, t))
    /\ apply_weight self i t (cross_entropy i t) = ([], Ok ce)
    /\ loss = focal_mean self i t ce.
Proof.
  unfold voxel_loss. intros H.
  apply bind_Ok_inv in H. destruct H as (w1 & [input' target'] & w2 & Hpre & H & ->).
  apply bind_Ok_inv in H. destruct H as (w3 & [i t] & w4 & Hfl & H & ->).
  apply bind_Ok_inv in H. destruct H as (w5 & ce & w6 & Haw & H & ->).
  unfold lift, torch_mean_last_dim in H.
  destruct (last (shape (focal_terms self i t ce)) 1%nat =? 0)%nat;
    [discriminate H |].
  injection H as <- <-.
  destruct (flatten_Ok _ _ _ _ _ Hfl)
    as (-> & _ & b & n & v & sp & _ & _ & Hsi & Hst & _).
  destruct (apply_weight_Ok self i t _ ce w5 b n v Hsi Hst Haw) as (-> & _).
  exists input', target', i, t, ce. simpl. rewrite app_nil_r. auto.
Qed.

(** A returned loss is a mean over at least one voxel. *)
Lemma voxel_loss_voxels (one_hot : Tensor -> nat -> result Tensor)
    (self : FocalLoss) (input target : Tensor) (w w0 : list string) (loss : Tensor)
    (input' target' i t : Tensor) (b n v : nat) :
  voxel_loss one_hot self input target = (w, Ok loss) ->
  preprocess one_hot self input target = (w0, Ok (input', target')) ->
  flatten input' target' = ([], Ok (i, t)) ->
  shape i = [b; n; v] ->
  (0 < v)%nat.
Proof.
  unfold voxel_loss. intros H Hpre Hfl Hs.
  rewrite (bind_Ok _ _ w0 (input', target') Hpre) in H. cbv beta iota in H.
  rewrite (bind_Ok _ _ [] (i, t) Hfl) in H. cbv beta iota in H.
  destruct (apply_weight self i t (cross_entropy i t)) as [w1 [ce | e |]];
    cbn in H; try discriminate H.
  unfold torch_mean_last_dim in H. rewrite focal_terms_shape, Hs in H.
  cbn in H. destruct v; [discriminate H | lia].
Qed.

Lemma torch_mean_last_dim_Ok (x : Tensor) (b n v : nat) :
  shape x = [b; n; v] -> (0 < v)%nat ->
  torch_mean_last_dim x = Ok (mean_last_dim x).
Proof.
  intros Hs Hv. unfold torch_mean_last_dim. rewrite Hs. cbn.
  destruct v; [lia | reflexivity].
Qed.

Lemma focal_terms_length (self : FocalLoss) (i t ce : Tensor) (m : nat) :
  length (data i) = m -> length (data t) = m -> length (data ce) = m ->
  length (data (focal_terms self i t ce)) = m.
Proof.
  intros Hi Ht Hce. unfold focal_terms. simpl.
  rewrite map2_length, length_map, map2_length. lia.
Qed.

Lemma mean_last_dim_3d (x : Tensor) (b n v : nat) :
  shape x = [b; n; v] ->
  mean_last_dim x = mkTensor [b; n] (map mean (blocks (b * n) v (data x))).
Proof.
  intros Hs. unfold mean_last_dim. rewrite Hs. simpl.
  now rewrite Nat.mul_1_r.
Qed.

Section VoxelMean.

Variable one_hot : Tensor -> nat -> result Tensor.

Hypothesis one_hot_wf :
  forall labels num_classes y, wf labels -> one_hot labels num_classes = Ok y -> wf y.

(** C2: on an input that passes the validation, the tensor of the
    per-element focal loss has shape [[B, N, V]], and [loss], of shape
    [[B, N]], holds at every [(batch, class)] position the sum of the [V]
    elements of that position divided by [V].  [loss] is the same whatever
    the reduction mode; every mode applies its final reduction to it, and
    ["none"] returns it as it is. *)
Theorem voxel_mean_before_reduction (self : FocalLoss) (input target : Tensor)
    (w : list string) (loss : Tensor) :
  wf input -> wf target ->
  voxel_loss one_hot self input target = (w, Ok loss) ->
  (forall r, voxel_loss one_hot (with_reduction r self) input target = (w, Ok loss))
  /\ (forall r, forward one_hot (with_reduction r self) input target
                = (let (w', out) := reduce (with_reduction r self) loss in
                   (w ++ w', out)))
  /\ forward one_hot (with_reduction "none" self) input target = (w, Ok loss)
  /\ exists (input' target' i t ce : Tensor) (b n v : nat) (spatial : list nat),
       preprocess one_hot self input target = (w, Ok (input', target'))
       /\ shape input' = b :: n :: spatial
       /\ v = fold_right Nat.mul 1%nat spatial
       /\ flatten input' target' = ([], Ok (i, t))
       /\ apply_weight self i t (cross_entropy i t) = ([], Ok ce)
       /\ shape (focal_terms self i t ce) = [b; n; v]
       /\ length (data (focal_terms self i t ce)) = (b * n * v)%nat
       /\ shape loss = [b; n]
       /\ length (data loss) = (b * n)%nat
       /\ forall k, (k < b * n)%nat ->
            length (block v (data (focal_terms self i t ce)) k) = v
            /\ nth k (data loss) 0
               = fold_right Rplus 0 (block v (data (focal_terms self i t ce)) k)
                 / INR v.
Proof.
  intros Hwi Hwt Hvl.
  split; [intros r; now rewrite voxel_loss_reduction |].
  split; [intros r; unfold forward; now rewrite voxel_loss_reduction, Hvl |].
  split; [now rewrite forward_none |].
  destruct (voxel_loss_Ok one_hot self input target w loss Hvl)
    as (input' & target' & i & t & ce & Hpre & Hfl & Haw & ->).
  destruct (preprocess_wf one_hot one_hot_wf self input target w input' target'
              Hwi Hwt Hpre) as [Hwi' Hwt'].
  destruct (flatten_Ok _ _ _ _ _ Hfl)
    as (_ & _ & b & n & v & sp & Hsp & Hv & Hsi & Hst & _).
  destruct (flatten_lengths input' target' [] i t b n v Hwi' Hwt' Hfl Hsi)
    as [Hli Hlt].
  assert (Hlce : length (data (cross_entropy i t)) = (b * n * v)%nat).
  { unfold cross_entropy. simpl. rewrite map2_length. lia. }
  destruct (apply_weight_lengths self i t _ ce [] b n v Hsi Hst Haw) as [_ Hlce'].
  specialize (Hlce' Hlce).
  pose proof (focal_terms_length self i t ce _ Hli Hlt Hlce') as Hlen.
  exists input', target', i, t, ce, b, n, v, sp.
  repeat (split; [assumption |]).
  unfold focal_mean.
  rewrite (mean_last_dim_3d _ b n v) by (now rewrite focal_terms_shape).
  split; [reflexivity |].
  split; [simpl; now rewrite length_map, blocks_length |].
  intros k Hk.
  assert (Hbl : length (block v (data (focal_terms self i t ce)) k) = v).
  { apply block_length. rewrite Hlen. nia. }
  split; [exact Hbl |].
  cbn [data]. unfold blocks. rewrite map_map.
  rewrite map_seq_nth by exact Hk.
  unfold mean, sum. now rewrite Hbl.
Qed.

End VoxelMean.

Lemma flat_map_map_length {A} (f : nat -> A -> R) (blk : list A) (l : list nat) :
  length (flat_map (fun c => map (f c) blk) l) = (length l * length blk)%nat.
Proof.
  induction l as [| c l IH]; simpl; [reflexivity |].
  now rewrite length_app, length_map, IH.
Qed.

Lemma one_hot_ref_wf (labels : Tensor) (num_classes : nat) (y : Tensor) :
  wf labels -> one_hot_ref labels num_classes = Ok y -> wf y.
Proof.
  unfold wf, one_hot_ref, numel.
  destruct (shape labels) as [| b [| [| [| c]] sp]]; try discriminate.
  intros Hl [= <-]. simpl in *.
  set (inner := fold_right Nat.mul 1%nat sp) in *.
  unfold blocks. rewrite map_map.
  rewrite (concat_length_const _ (num_classes * inner)).
  - now rewrite length_map, length_seq.
  - apply Forall_map_seq. intros k Hk.
    rewrite (flat_map_map_length (fun c x => if Req_dec_T x (INR c) then 1 else 0)).
    rewrite length_seq, block_length; [reflexivity | nia].
Qed.

Lemma voxel_mean_before_reduction_witness :
  let self := fl_default in
  let loss := focal_mean self logits_1x1x2 labels_1x1x2
                (cross_entropy logits_1x1x2 labels_1x1x2) in
  (forall r, voxel_loss one_hot_ref (with_reduction r self) logits_1x1x2 labels_1x1x2
             = ([], Ok loss))
  /\ (forall r, forward one_hot_ref (with_reduction r self) logits_1x1x2 labels_1x1x2
                = (let (w', out) := reduce (with_reduction r self) loss in
                   ([] ++ w', out)))
  /\ forward one_hot_ref (with_reduction "none" self) logits_1x1x2 labels_1x1x2
     = ([], Ok loss)
  /\ exists (input' target' i t ce : Tensor) (b n v : nat) (spatial : list nat),
       preprocess one_hot_ref self logits_1x1x2 labels_1x1x2
       = ([], Ok (input', target'))
       /\ shape input' = b :: n :: spatial
       /\ v = fold_right Nat.mul 1%nat spatial
       /\ flatten input' target' = ([], Ok (i, t))
       /\ apply_weight self i t (cross_entropy i t) = ([], Ok ce)
       /\ shape (focal_terms self i t ce) = [b; n; v]
       /\ length (data (focal_terms self i t ce)) = (b * n * v)%nat
       /\ shape loss = [b; n]
       /\ length (data loss) = (b * n)%nat
       /\ forall k, (k < b * n)%nat ->
            length (block v (data (focal_terms self i t ce)) k) = v
            /\ nth k (data loss) 0
               = fold_right Rplus 0 (block v (data (focal_terms self i t ce)) k)
                 / INR v.
Proof.
  apply (voxel_mean_before_reduction one_hot_ref one_hot_ref_wf fl_default
           logits_1x1x2 labels_1x1x2 []); reflexivity.
Defined.

(** ** The focal factor *)

Lemma map_nth0 (f : R -> R) (l : list R) (k : nat) :
  (k < length l)%nat -> nth k (map f l) 0 = f (nth k l 0).
Proof.
  intros H. rewrite (nth_indep _ 0 (f 0)) by (now rewrite length_map).
  apply map_nth.
Qed.

Lemma focal_terms_nth (self : FocalLoss) (i t ce : Tensor) (k : nat) :
  (k < length (data (focal_terms self i t ce)))%nat ->
  (k < length (data i))%nat /\ (k < length (data t))%nat
  /\ (k < length (data ce))%nat
  /\ nth k (data (focal_terms self i t ce)) 0
     = Elem.focal_term (gamma self) (nth k (data i) 0) (nth k (data t) 0)
         (nth k (data ce) 0).
Proof.
  unfold focal_terms, tmap2, tmap. cbn [data].
  rewrite map2_length, length_map, map2_length. intros Hk.
  repeat (split; [lia |]).
  rewrite map2_nth by (rewrite ?length_map, ?map2_length; lia).
  rewrite map_nth0 by (rewrite map2_length; lia).
  rewrite map2_nth by lia. reflexivity.
Qed.

Lemma map2_ones (xs ys : list R) :
  (length ys <= length xs)%nat -> map2 Rmult (map (fun _ => 1) xs) ys = ys.
Proof.
  unfold map2. revert xs.
  induction ys as [| y ys IH]; intros [| x xs] H; simpl in *; try reflexivity; try lia.
  rewrite IH by lia. now rewrite Rmult_1_l.
Qed.

Lemma focal_terms_gamma_0 (self : FocalLoss) (i t ce : Tensor) :
  gamma self = 0 -> shape ce = shape i ->
  (length (data ce) <= Nat.min (length (data i)) (length (data t)))%nat ->
  focal_terms self i t ce = ce.
Proof.
  intros Hg Hs Hl. unfold focal_terms, tmap2 at 1, tmap. cbn [shape data].
  rewrite Hg.
  rewrite (map_ext (fun x => exp (x * 0)) (fun _ => 1))
    by (intros x; now rewrite Rmult_0_r, exp_0).
  rewrite map2_ones by (unfold tmap2; cbn [data]; now rewrite map2_length).
  destruct ce as [s d]. simpl in *. now rewrite Hs.
Qed.

Lemma bind_ext {A B} (m : M A) (f g : A -> M B) :
  (forall w a, m = (w, Ok a) -> f a = g a) -> bind m f = bind m g.
Proof.
  intros H. destruct m as [w [a | e |]]; simpl; [| reflexivity | reflexivity].
  now rewrite (H w a eq_refl).
Qed.

Lemma apply_weight_no_longer (self : FocalLoss) (i t ce ce' : Tensor)
    (w : list string) (b n v : nat) :
  shape i = [b; n; v] -> shape t = [b; n; v] ->
  apply_weight self i t ce = (w, Ok ce') ->
  shape ce' = shape ce /\ (length (data ce') <= length (data ce))%nat.
Proof.
  intros Hsi Hst H.
  destruct (apply_weight_Ok self i t ce ce' w b n v Hsi Hst H)
    as (_ & [[_ ->] | (wt & cw & _ & _ & _ & _ & _ & ->)]).
  - split; [reflexivity | lia].
  - split; [reflexivity |]. simpl. rewrite map2_length. lia.
Qed.

(** ** The focal factor, exactly and in floating point *)









Lemma apply_weight_2_3 :
  apply_weight (fl_weighted weight_2_3) pred_1x2x1 grnd_1x2x1
    (cross_entropy pred_1x2x1 grnd_1x2x1)
  = ([], Ok ce_weighted_2_3).
Proof. reflexivity. Qed.



Example docstring_flattened :
  (x <- preprocess one_hot_ref fl_doc pred_doc grnd_doc ;;
   flatten (fst x) (snd x))
  = ([], Ok (mkTensor [3; 2; 1]%nat [1; 0; 0; 1; 1; 0],
             mkTensor [3; 2; 1]%nat [1; 0; 0; 1; 1; 0])).
Proof.
  unfold preprocess, one_hot_ref. simpl.
  repeat match goal with
         | |- context [Req_dec_T ?a ?b] =>
             destruct (Req_dec_T a b); try (exfalso; lra)
         end.
  reflexivity.
Qed.

(** ** The loss of Lin et al. and the symmetry of the two classes *)

Lemma sigmoid_opp (x : R) : Elem.sigmoid (- x) = 1 - Elem.sigmoid x.
Proof.
  rewrite one_minus_sigmoid. unfold Elem.sigmoid. rewrite Ropp_involutive.
  pose proof (exp_pos x) as Hx. pose proof (exp_pos (- x)) as Hn.
  assert (E : exp x * exp (- x) = 1) by (rewrite <- exp_plus, Rplus_opp_r; apply exp_0).
  apply Rmult_eq_reg_r with ((1 + exp x) * (1 + exp (- x))); [| nra].
  field_simplify; nra.
Qed.

Lemma ce_class_symmetry (i t : R) : Elem.ce (- i) (1 - t) = Elem.ce i t.
Proof.
  rewrite !ce_eq_reference. unfold Elem.ce_reference.
  rewrite sigmoid_opp. replace (1 - (1 - Elem.sigmoid i)) with (Elem.sigmoid i) by ring.
  ring.
Qed.

Lemma p_class_symmetry (i t : R) : Elem.p (- i) (1 - t) = Elem.p i t.
Proof. unfold Elem.p. f_equal. ring. Qed.

Lemma map2_map_map (f : R -> R -> R) (g h : R -> R) (xs ys : list R) :
  map2 f (map g xs) (map h ys) = map2 (fun x y => f (g x) (h y)) xs ys.
Proof.
  unfold map2. revert ys.
  induction xs as [| x xs IH]; intros [| y ys]; simpl; try reflexivity.
  now rewrite IH.
Qed.

Lemma map2_ext (f g : R -> R -> R) (xs ys : list R) :
  (forall x y, f x y = g x y) -> map2 f xs ys = map2 g xs ys.
Proof. intros H. unfold map2. apply map_ext. intros [x y]. apply H. Qed.

(** X2: Exchanging the two classes, that is negating every logit and replacing
    every label [t] by [1 - t], changes neither the cross entropy of lines
    122-123 nor the tensor averaged in line 150. *)
Theorem class_exchange_invariant (self : FocalLoss) (i t ce : Tensor) :
  data (cross_entropy (tmap Ropp i) (tmap (fun y => 1 - y) t))
  = data (cross_entropy i t)
  /\ data (focal_terms self (tmap Ropp i) (tmap (fun y => 1 - y) t) ce)
     = data (focal_terms self i t ce).
Proof.
  split.
  - unfold cross_entropy, tmap2, tmap. cbn [data].
    rewrite map2_map_map. apply map2_ext. intros x y. apply ce_class_symmetry.
  - unfold focal_terms, tmap2, tmap. cbn [data].
    rewrite map2_map_map. do 2 f_equal.
    apply map2_ext. intros x y. apply p_class_symmetry.
Qed.

(** X1: On a label that is 1 or 0 the element averaged in line 150, without
    class weights, is the focal loss [(1 - p_t)^gamma * (- log p_t)], where
    [p_t] is the probability [sigmoid(i)] of the labelled class for label 1
    and [1 - sigmoid(i)] for label 0 (the comment of line 148). *)
Theorem hard_label_is_focal_loss (self : FocalLoss) (i t : Tensor) (k : nat) :
  (k < length (data i))%nat -> (k < length (data t))%nat ->
  let x := nth k (data i) 0 in
  let y := nth k (data t) 0 in
  let term := nth k (data (focal_terms self i t (cross_entropy i t))) 0 in
  (y = 1 ->
   term = Rpower (1 - Elem.sigmoid x) (gamma self) * - ln (Elem.sigmoid x))
  /\ (y = 0 ->
      term = Rpower (1 - (1 - Elem.sigmoid x)) (gamma self)
             * - ln (1 - Elem.sigmoid x)).
Proof.
  intros Hi Ht x y term.
  assert (Hk : (k < length (data (focal_terms self i t (cross_entropy i t))))%nat).
  { unfold focal_terms, cross_entropy, tmap2, tmap. cbn [data].
    rewrite map2_length, length_map, !map2_length. lia. }
  destruct (focal_terms_nth self i t _ k Hk) as (_ & _ & _ & E).
  assert (Ece : nth k (data (cross_entropy i t)) 0 = Elem.ce x y).
  { unfold cross_entropy, tmap2. cbn [data]. now apply map2_nth. }
  fold x y term in E. rewrite Ece in E.
  unfold Elem.focal_term, Elem.modulation, Elem.p, Elem.logsigmoid in E.
  split; intros Hy; rewrite E, Hy, ce_eq_reference; unfold Elem.ce_reference, Rpower.
  - replace (- x * (1 * 2 - 1)) with (- x) by ring.
    rewrite sigmoid_opp. rewrite (Rmult_comm (gamma self)). ring.
  - replace (- x * (0 * 2 - 1)) with x by ring.
    replace (1 - (1 - Elem.sigmoid x)) with (Elem.sigmoid x) by ring.
    rewrite (Rmult_comm (gamma self)). ring.
Qed.

Lemma hard_label_is_focal_loss_witness :
  let self := fl_default in
  let x := nth 1 (data pred_1x2x1) 0 in
  let y := nth 1 (data grnd_1x2x1) 0 in
  let term := nth 1 (data (focal_terms self pred_1x2x1 grnd_1x2x1
                             (cross_entropy pred_1x2x1 grnd_1x2x1))) 0 in
  (y = 1 ->
   term = Rpower (1 - Elem.sigmoid x) (gamma self) * - ln (Elem.sigmoid x))
  /\ (y = 0 ->
      term = Rpower (1 - (1 - Elem.sigmoid x)) (gamma self)
             * - ln (1 - Elem.sigmoid x)).
Proof.
  apply (hard_label_is_focal_loss fl_default pred_1x2x1 grnd_1x2x1 1); simpl; lia.
Defined.

(** ** Edge cases of [forward] *)

(** Nothing but [preprocess] warns. *)
Lemma silent_bind {A B} (m : M A) (f : A -> M B) :
  fst m = [] -> (forall a, fst (f a) = []) -> fst (bind m f) = [].
Proof.
  destruct m as [w [a | e |]]; simpl; intros -> Hf; [| reflexivity | reflexivity].
  specialize (Hf a). destruct (f a) as [w' r]. simpl in *. now subst.
Qed.

Lemma flatten_silent (input target : Tensor) : fst (flatten input target) = [].
Proof.
  unfold flatten.
  destruct (negb (shape_eqb (shape target) (shape input))); [reflexivity |].
  apply silent_bind; [reflexivity |]. intros [b n].
  apply silent_bind; [reflexivity |]. intros i.
  apply silent_bind; [reflexivity |]. intros t. reflexivity.
Qed.

Lemma apply_weight_silent (self : FocalLoss) (i t ce : Tensor) :
  fst (apply_weight self i t ce) = [].
Proof.
  unfold apply_weight. destruct (weight self) as [wt |]; [| reflexivity].
  apply silent_bind; [apply class_weight_of_silent |]. intros cw.
  apply silent_bind; [reflexivity |]. intros [|]; [reflexivity |].
  apply silent_bind; [reflexivity |]. intros rs.
  apply silent_bind; [reflexivity |]. intros b.
  apply silent_bind; [reflexivity |]. intros v. reflexivity.
Qed.

Lemma reduce_silent (self : FocalLoss) (loss : Tensor) : fst (reduce self loss) = [].
Proof.
  unfold reduce.
  destruct (reduction self =? LossReduction_value SUM)%string; [reflexivity |].
  destruct (reduction self =? LossReduction_value NONE)%string; [reflexivity |].
  now destruct (reduction self =? LossReduction_value MEAN)%string.
Qed.

Lemma after_preprocess_silent (self : FocalLoss) (input target : Tensor) :
  fst (after_preprocess self input target) = [].
Proof.
  unfold after_preprocess.
  apply silent_bind; [apply flatten_silent |]. intros [i t].
  apply silent_bind; [apply apply_weight_silent |]. intros ce.
  apply silent_bind; [reflexivity |]. intros loss.
  apply reduce_silent.
Qed.

Lemma reshape_b_n_empty (b n : nat) (x : Tensor) :
  (b * n = 0)%nat -> numel x = 0%nat -> reshape_b_n b n x = Raise RuntimeError.
Proof. intros Hbn Hn. unfold reshape_b_n. now rewrite Hn, Hbn. Qed.

Lemma shape_eqb_refl (s : list nat) : shape_eqb s s = true.
Proof. unfold shape_eqb. destruct (list_eq_dec Nat.eq_dec s s); [reflexivity | contradiction]. Qed.

Lemma flatten_empty (input target : Tensor) (b n : nat) (sp : list nat) :
  shape input = b :: n :: sp -> shape target = b :: n :: sp -> (b * n = 0)%nat ->
  flatten input target = ([], Raise RuntimeError).
Proof.
  intros Hsi Hst Hbn. unfold flatten. rewrite Hsi, Hst, shape_eqb_refl.
  cbn [negb firstn].
  rewrite (bind_lift_Ok _ _ (b, n) eq_refl).
  rewrite reshape_b_n_empty; [reflexivity | exact Hbn |].
  unfold numel. rewrite Hsi. simpl. nia.
Qed.

Section EdgeCases.

Variable one_hot : Tensor -> nat -> result Tensor.

(** X3: A prediction without a channel axis: line 93 raises [IndexError]
    before anything else is looked at. *)
Theorem forward_needs_channel_axis (self : FocalLoss) (input target : Tensor) :
  (length (shape input) < 2)%nat ->
  forward one_hot self input target = ([], Raise IndexError).
Proof.
  intros H. unfold forward, voxel_loss, preprocess, shape_at.
  assert (E : nth_error (shape input) 1 = None) by (apply nth_error_None; lia).
  now rewrite E.
Qed.

(** X4: An empty batch, or no class left to score: the shapes agree, but the
    reshape of line 117 cannot infer the number of voxels and [forward]
    raises [RuntimeError]. *)
Theorem forward_refuses_empty (self : FocalLoss) (input target : Tensor)
    (w : list string) (input' target' : Tensor) (b n : nat) (sp : list nat) :
  preprocess one_hot self input target = (w, Ok (input', target')) ->
  shape input' = b :: n :: sp -> shape target' = b :: n :: sp ->
  (b * n = 0)%nat ->
  forward one_hot self input target = (w, Raise RuntimeError).
Proof.
  intros Hpre Hsi Hst Hbn. rewrite forward_after_preprocess.
  rewrite (bind_Ok _ _ w (input', target') Hpre). cbv beta iota.
  assert (E : after_preprocess self input' target' = ([], Raise RuntimeError)).
  { unfold after_preprocess.
    now rewrite (flatten_empty input' target' b n sp Hsi Hst Hbn). }
  rewrite E. simpl. now rewrite app_nil_r.
Qed.

(** X5: The warnings of a call: none unless the prediction has a single
    channel, and then one for each of [to_onehot_y=True] and
    [include_background=False], in this order, whatever else happens. *)
Theorem forward_warnings (self : FocalLoss) (input target : Tensor) (c : nat) :
  shape_at input 1 = Ok c ->
  fst (forward one_hot self input target)
  = if (c =? 1)%nat
    then (if to_onehot_y self then [msg_onehot_ignored] else [])
         ++ (if include_background self then [] else [msg_background_ignored])
    else [].
Proof.
  intros Hc. rewrite forward_after_preprocess.
  destruct (c =? 1)%nat eqn:Ec.
  - apply Nat.eqb_eq in Ec. subst c.
    rewrite (bind_Ok _ _ _ _ (preprocess_single_channel one_hot self input target Hc)).
    cbv beta iota. cbn [fst]. rewrite after_preprocess_silent. now rewrite app_nil_r.
  - apply silent_bind; [| intros [i' t']; apply after_preprocess_silent].
    unfold preprocess. rewrite (bind_lift_Ok _ _ c Hc), Ec.
    apply silent_bind.
    + now destruct (to_onehot_y self).
    + intros tgt. destruct (negb (include_background self)); [| reflexivity].
      apply silent_bind; [reflexivity |]. intros t1.
      apply silent_bind; [reflexivity |]. intros i1. reflexivity.
Qed.

End EdgeCases.

Section OutputShape.

Variable one_hot : Tensor -> nat -> result Tensor.

Lemma preprocess_input_shape (self : FocalLoss) (input target : Tensor)
    (w : list string) (input' target' : Tensor) (b c : nat) (sp : list nat) :
  shape input = b :: c :: sp ->
  preprocess one_hot self input target = (w, Ok (input', target')) ->
  shape input'
  = b :: (if include_background self || (c =? 1)%nat then c else (c - 1)%nat) :: sp.
Proof.
  intros Hs H. unfold preprocess in H.
  assert (Hc : shape_at input 1 = Ok c) by (unfold shape_at; now rewrite Hs).
  rewrite (bind_lift_Ok _ _ c Hc) in H.
  apply bind_Ok_inv in H. destruct H as (w3 & tgt & w4 & _ & H & _).
  destruct (include_background self); cbn [negb orb] in H |- *.
  - now injection H as _ <- _.
  - destruct (c =? 1)%nat.
    + now injection H as _ <- _.
    + apply bind_Ok_inv in H. destruct H as (w5 & t1 & w6 & _ & H & _).
      apply bind_Ok_inv in H. destruct H as (w7 & i1 & w8 & Hi1 & H & _).
      injection H as _ <- _. unfold lift, drop_first_channel in Hi1.
      rewrite Hs in Hi1. now injection Hi1 as _ <-.
Qed.

(** X6: The shape of what [forward] returns for a prediction of shape
    [[B, C, *spatial]]: under ["none"] it is [[B, N]] with at least one
    element, where [N] is [C], or [C - 1] when the background is excluded
    from several channels; under any other reduction it is a scalar. *)
Theorem forward_output_shape (self : FocalLoss) (input target : Tensor)
    (b c : nat) (sp : list nat) (w : list string) (out : Tensor) :
  shape input = b :: c :: sp ->
  forward one_hot self input target = (w, Ok out) ->
  let n := if include_background self || (c =? 1)%nat then c else (c - 1)%nat in
  (reduction self = "none"%string ->
   shape out = [b; n] /\ length (data out) = (b * n)%nat /\ (0 < b * n)%nat)
  /\ (reduction self <> "none"%string ->
      shape out = [] /\ length (data out) = 1%nat).
Proof.
  intros Hs H n. unfold forward in H.
  apply bind_Ok_inv in H. destruct H as (w1 & loss & w2 & Hvl & Hred & _).
  destruct (voxel_loss_Ok one_hot self input target w1 loss Hvl)
    as (input' & target' & i & t & ce & Hpre & Hfl & _ & ->).
  pose proof (preprocess_input_shape self input target w1 input' target' b c sp Hs Hpre)
    as Hs'. fold n in Hs'.
  destruct (flatten_Ok _ _ _ _ _ Hfl)
    as (_ & _ & b' & n' & v & sp' & Hsp & _ & Hsi & _ & _ & _ & Hbn).
  rewrite Hs' in Hsp. injection Hsp as <- <- <-.
  unfold focal_mean in Hred.
  rewrite (mean_last_dim_3d _ b n v) in Hred by (now rewrite focal_terms_shape).
  unfold reduce in Hred. split.
  - intros Hr. rewrite Hr in Hred. simpl in Hred. injection Hred as _ <-.
    simpl. rewrite length_map, blocks_length. auto.
  - intros Hr.
    destruct (reduction self =? LossReduction_value SUM)%string;
      [injection Hred as _ <-; now split |].
    destruct (reduction self =? LossReduction_value NONE)%string eqn:En;
      [apply String.eqb_eq in En; now elim Hr |].
    destruct (reduction self =? LossReduction_value MEAN)%string;
      [injection Hred as _ <-; now split | discriminate Hred].
Qed.

End OutputShape.

(** ** Excluding the background *)

Lemma nth_skipn_add (k n : nat) (l : list R) :
  nth n (skipn k l) 0 = nth (k + n) l 0.
Proof.
  revert l. induction k as [| k IH]; intros l; [reflexivity |].
  destruct l as [| x l]; simpl; [now destruct n | apply IH].
Qed.

Lemma nth_firstn_lt (k n : nat) (l : list R) :
  (n < k)%nat -> nth n (firstn k l) 0 = nth n l 0.
Proof.
  revert n l. induction k as [| k IH]; intros n l Hn; [lia |].
  destruct l as [| x l]; [now destruct n |].
  destruct n as [| n]; simpl; [reflexivity | apply IH; lia].
Qed.

Lemma block_nth (sz k j : nat) (l : list R) :
  (j < sz)%nat -> nth j (block sz l k) 0 = nth (k * sz + j) l 0.
Proof.
  intros Hj. unfold block. rewrite nth_firstn_lt by exact Hj.
  apply nth_skipn_add.
Qed.

Lemma concat_nth_const (ls : list (list R)) (m q r : nat) :
  Forall (fun l => length l = m) ls -> (q < length ls)%nat -> (r < m)%nat ->
  nth (q * m + r) (List.concat ls) 0 = nth r (nth q ls []) 0.
Proof.
  intros Hall. revert q. induction Hall as [| l ls Hl _ IH]; intros q Hq Hr;
    simpl in Hq; [lia |].
  simpl. destruct q as [| q].
  - simpl. rewrite app_nth1 by lia. reflexivity.
  - rewrite app_nth2 by (simpl; lia).
    replace (S q * m + r - length l)%nat with (q * m + r)%nat by (simpl; lia).
    apply IH; lia.
Qed.

(** X7: [x[:, 1:]] on a tensor of shape [[B, C, *spatial]]: the element at
    batch entry [bi], channel [ch] and voxel [s] of the result is the one at
    batch entry [bi], channel [ch + 1] and voxel [s] of [x]; channel 0 is
    not in the result. *)
Theorem drop_first_channel_nth (x y : Tensor) (b c : nat) (sp : list nat)
    (bi ch s : nat) :
  wf x -> shape x = b :: c :: sp ->
  drop_first_channel x = Ok y ->
  let inner := fold_right Nat.mul 1%nat sp in
  (bi < b)%nat -> (ch < c - 1)%nat -> (s < inner)%nat ->
  shape y = b :: (c - 1)%nat :: sp
  /\ nth ((bi * (c - 1) + ch) * inner + s) (data y) 0
     = nth ((bi * c + (ch + 1)) * inner + s) (data x) 0.
Proof.
  intros Hwf Hs Hd inner Hbi Hch Hsv.
  unfold drop_first_channel in Hd. rewrite Hs in Hd. injection Hd as <-.
  fold inner. split; [reflexivity |]. cbn [data].
  unfold wf, numel in Hwf. rewrite Hs in Hwf. simpl in Hwf. fold inner in Hwf.
  unfold blocks. rewrite map_map.
  replace ((bi * (c - 1) + ch) * inner + s)%nat
    with (bi * (c * inner - inner) + (ch * inner + s))%nat by nia.
  rewrite (concat_nth_const _ (c * inner - inner)).
  - rewrite (nth_indep _ [] (skipn inner (block (c * inner) (data x) 0)))
      by (now rewrite length_map, length_seq).
    rewrite (map_seq_nth (fun k => skipn inner (block (c * inner) (data x) k))) by exact Hbi.
    rewrite nth_skipn_add, block_nth by nia.
    f_equal. nia.
  - apply Forall_map_seq. intros k Hk.
    rewrite length_skipn, block_length; [reflexivity | nia].
  - now rewrite length_map, length_seq.
  - nia.
Qed.

Section Background.

Variable one_hot : Tensor -> nat -> result Tensor.

(** X8: With several channels and no one-hot expansion,
    [include_background=False] is [forward] with the background included
    on the tensors [input[:, 1:]] and [target[:, 1:]]. *)
Theorem exclude_background_is_slicing (self : FocalLoss)
    (input target input1 target1 : Tensor) (c : nat) :
  to_onehot_y self = false ->
  shape_at input 1 = Ok c -> c <> 1%nat ->
  drop_first_channel input = Ok input1 ->
  drop_first_channel target = Ok target1 ->
  forward one_hot (with_include_background false self) input target
  = forward one_hot (with_include_background true self) input1 target1.
Proof.
  intros Hoh Hc Hc1 Hi Ht. rewrite !forward_after_preprocess.
  assert (Hl : preprocess one_hot (with_include_background false self) input target
               = ([], Ok (input1, target1))).
  { unfold preprocess. cbn [to_onehot_y include_background with_include_background].
    rewrite Hoh, (bind_lift_Ok _ _ c Hc), bind_ret.
    apply Nat.eqb_neq in Hc1. rewrite Hc1. cbn [negb].
    now rewrite (bind_lift_Ok _ _ target1 Ht), (bind_lift_Ok _ _ input1 Hi). }
  assert (Hr : preprocess one_hot (with_include_background true self) input1 target1
               = ([], Ok (input1, target1))).
  { unfold preprocess. cbn [to_onehot_y include_background with_include_background].
    rewrite Hoh.
    assert (Hc' : exists c', shape_at input1 1 = Ok c').
    { unfold drop_first_channel in Hi. unfold shape_at.
      destruct (shape input) as [| b [| c0 sp]]; try discriminate Hi.
      injection Hi as <-. simpl. eauto. }
    destruct Hc' as [c' Hc'].
    now rewrite (bind_lift_Ok _ _ c' Hc'), bind_ret. }
  rewrite Hl, Hr. reflexivity.
Qed.

End Background.

(** ** Class weights and the returned loss *)



Section ClassWeights.

Variable one_hot : Tensor -> nat -> result Tensor.

Hypothesis one_hot_wf :
  forall labels num_classes y, wf labels -> one_hot labels num_classes = Ok y -> wf y.


End ClassWeights.

(** ** Sign of the loss, and its dependence on gamma *)















(** What a returned [[B, N]] loss was computed from. *)
Lemma voxel_loss_inv (one_hot : Tensor -> nat -> result Tensor)
    (one_hot_wf : forall labels num_classes y,
        wf labels -> one_hot labels num_classes = Ok y -> wf y)
    (self : FocalLoss) (input target : Tensor) (w : list string) (loss : Tensor) :
  wf input -> wf target ->
  voxel_loss one_hot self input target = (w, Ok loss) ->
  exists input' target' i t ce b n v,
    preprocess one_hot self input target = (w, Ok (input', target'))
    /\ flatten input' target' = ([], Ok (i, t))
    /\ apply_weight self i t (cross_entropy i t) = ([], Ok ce)
    /\ loss = focal_mean self i t ce
    /\ shape i = [b; n; v] /\ shape t = [b; n; v]
    /\ data i = data input' /\ data t = data target'
    /\ (0 < b * n)%nat /\ (0 < v)%nat
    /\ length (data i) = (b * n * v)%nat /\ length (data t) = (b * n * v)%nat
    /\ length (data ce) = (b * n * v)%nat.
Proof.
  intros Hwi Hwt Hvl.
  destruct (voxel_loss_Ok one_hot self input target w loss Hvl)
    as (input' & target' & i & t & ce & Hpre & Hfl & Haw & Hloss).
  destruct (preprocess_wf one_hot one_hot_wf self input target w input' target'
              Hwi Hwt Hpre) as [Hwi' Hwt'].
  destruct (flatten_Ok _ _ _ _ _ Hfl)
    as (_ & _ & b & n & v & sp & _ & _ & Hsi & Hst & Hdi & Hdt & Hbn).
  destruct (flatten_lengths input' target' [] i t b n v Hwi' Hwt' Hfl Hsi)
    as [Hli Hlt].
  pose proof (voxel_loss_voxels one_hot self input target w w loss input' target'
                i t b n v Hvl Hpre Hfl Hsi) as Hv.
  destruct (apply_weight_lengths self i t _ ce [] b n v Hsi Hst Haw) as [_ Hlce].
  exists input', target', i, t, ce, b, n, v.
  repeat (split; [assumption |]).
  apply Hlce. unfold cross_entropy, tmap2. cbn [data]. rewrite map2_length. lia.
Qed.

Section Sign.

Variable one_hot : Tensor -> nat -> result Tensor.

Hypothesis one_hot_wf :
  forall labels num_classes y, wf labels -> one_hot labels num_classes = Ok y -> wf y.



End Sign.

(** ** Gamma = 0: the weighted binary cross entropy with logits *)

Lemma sum_block_as_seq (f : nat -> R) (l : list R) (v k : nat) :
  (k * v + v <= length l)%nat ->
  (forall j, (j < v)%nat -> nth (k * v + j) l 0 = f j) ->
  block v l k = map f (seq 0 v).
Proof.
  intros Hl Hf.
  assert (Hb : length (block v l k) = v) by (now apply block_length).
  apply (nth_ext _ _ 0 0); [now rewrite length_map, length_seq |].
  intros j Hj. rewrite Hb in Hj.
  rewrite block_nth by exact Hj. rewrite map_seq_nth by exact Hj.
  now apply Hf.
Qed.

Section WeightedBCE.

Variable one_hot : Tensor -> nat -> result Tensor.

Hypothesis one_hot_wf :
  forall labels num_classes y, wf labels -> one_hot labels num_classes = Ok y -> wf y.

(** C7: with [gamma = 0] the factor [exp(gamma * logsigmoid(-i*(2t-1)))] is
    1 for every logit and label, and whenever lines 93-150 return a loss,
    its entry for batch entry [bi] and class [c] is the binary cross entropy
    with logits, [-(t*log(sigmoid(x)) + (1-t)*log(1-sigmoid(x)))], of the
    preprocessed prediction and target, weighted by the weight of class [c]
    (1 without weights) and averaged over the [V] voxels; [forward] returns
    the reduction of that tensor. *)
Theorem gamma_0_is_weighted_bce_with_logits (self : FocalLoss)
    (input target : Tensor) (w : list string) (loss : Tensor) :
  gamma self = 0 ->
  wf input -> wf target ->
  voxel_loss one_hot self input target = (w, Ok loss) ->
  (forall i t : R, exp (Elem.logsigmoid (- i * (t * 2 - 1)) * gamma self) = 1)
  /\ exists (input' target' : Tensor) (b n v : nat) (sp : list nat),
       preprocess one_hot self input target = (w, Ok (input', target'))
       /\ shape input' = b :: n :: sp /\ shape target' = b :: n :: sp
       /\ v = fold_right Nat.mul 1%nat sp /\ (0 < v)%nat
       /\ shape loss = [b; n]
       /\ (forall bi c, (bi < b)%nat -> (c < n)%nat ->
             nth (bi * n + c) (data loss) 0
             = weighted_bce_entry (class_weight_or_one self c)
                 (data input') (data target') v (bi * n + c))
       /\ forward one_hot self input target = bind (w, Ok loss) (reduce self).
Proof.
  intros Hg Hwi Hwt Hvl. split.
  { intros i t. rewrite Hg. apply (modulation_gamma_0 i t). }
  destruct (voxel_loss_inv one_hot one_hot_wf self input target w loss Hwi Hwt Hvl)
    as (input' & target' & i & t & ce & b & n & v & Hpre & Hfl & Haw & ->
        & Hsi & Hst & Hdi & Hdt & Hbn & Hv & Hli & Hlt & Hlce).
  destruct (flatten_Ok _ _ _ _ _ Hfl)
    as (_ & Hsame & b' & n' & v' & sp & Hs & Hv' & Hsi' & _).
  rewrite Hsi in Hsi'. injection Hsi' as <- <- <-.
  exists input', target', b, n, v, sp.
  split; [exact Hpre |]. split; [exact Hs |].
  split; [now rewrite Hsame |]. split; [exact Hv' |]. split; [exact Hv |].
  destruct (apply_weight_lengths self i t _ ce [] b n v Hsi Hst Haw) as [Hsce _].
  assert (Hft : focal_terms self i t ce = ce).
  { apply focal_terms_gamma_0; [exact Hg | exact Hsce | lia]. }
  unfold focal_mean. rewrite Hft.
  assert (Hsce' : shape ce = [b; n; v]) by (now rewrite Hsce).
  rewrite (mean_last_dim_3d ce b n v Hsce').
  split; [reflexivity |]. split.
  - intros bi c Hbi Hc. cbn [data].
    assert (Hk : (bi * n + c < b * n)%nat) by nia.
    unfold blocks. rewrite map_map, map_seq_nth by exact Hk.
    unfold weighted_bce_entry, mean.
    rewrite (sum_block_as_seq
               (fun j => bce_with_logits (class_weight_or_one self c)
                           (nth ((bi * n + c) * v + j) (data input') 0)
                           (nth ((bi * n + c) * v + j) (data target') 0))
               (data ce) v (bi * n + c)).
    + unfold sum. now rewrite length_map, length_seq.
    + nia.
    + intros j Hj.
      assert (Hidx : ((bi * n + c) * v + j < b * n * v)%nat) by nia.
      rewrite <- Hdi, <- Hdt.
      assert (Hce : nth ((bi * n + c) * v + j) (data (cross_entropy i t)) 0
                    = bce_with_logits 1 (nth ((bi * n + c) * v + j) (data i) 0)
                        (nth ((bi * n + c) * v + j) (data t) 0)).
      { unfold cross_entropy, tmap2. cbn [data]. rewrite map2_nth by lia.
        rewrite ce_eq_reference. unfold Elem.ce_reference, bce_with_logits. ring. }
      destruct (apply_weight_Ok self i t _ ce [] b n v Hsi Hst Haw)
        as (_ & [[Hnone ->] | (wt & cw & Hw & _ & Hlen & Hnth & _ & ->)]).
      * unfold class_weight_or_one. rewrite Hnone. exact Hce.
      * unfold class_weight_or_one. rewrite Hw.
        unfold tmap2 at 1. cbn [data].
        rewrite map2_nth.
        -- assert (Hat : nth ((bi * n + c) * v + j) (expand_class_weight b v cw) 0
                         = nth c cw 0).
           { rewrite <- Hlen.
             apply expand_class_weight_nth; rewrite ?Hlen; assumption. }
           rewrite Hce, Hat, (Hnth c Hc). unfold bce_with_logits. ring.
        -- unfold cross_entropy, tmap2. cbn [data]. rewrite map2_length. lia.
        -- rewrite expand_class_weight_length, Hlen. lia.
  - unfold forward. rewrite Hvl. unfold focal_mean.
    now rewrite Hft, (mean_last_dim_3d ce b n v Hsce').
Qed.

End WeightedBCE.

Lemma voxel_loss_gamma_0 :
  voxel_loss one_hot_ref (with_gamma 0 (fl_weighted weight_2_3))
    pred_1x2x1 grnd_1x2x1
  = ([], Ok (focal_mean (with_gamma 0 (fl_weighted weight_2_3))
               pred_1x2x1 grnd_1x2x1 ce_weighted_2_3)).
Proof.
  unfold voxel_loss.
  rewrite (bind_Ok _ _ [] (pred_1x2x1, grnd_1x2x1) eq_refl). cbv beta iota.
  rewrite (bind_Ok _ _ [] (pred_1x2x1, grnd_1x2x1) eq_refl). cbv beta iota.
  rewrite (bind_Ok _ _ [] ce_weighted_2_3 apply_weight_2_3). reflexivity.
Qed.

Lemma gamma_0_is_weighted_bce_with_logits_witness :
  let self := with_gamma 0 (fl_weighted weight_2_3) in
  let loss := focal_mean self pred_1x2x1 grnd_1x2x1 ce_weighted_2_3 in
  (forall i t : R, exp (Elem.logsigmoid (- i * (t * 2 - 1)) * gamma self) = 1)
  /\ exists (input' target' : Tensor) (b n v : nat) (sp : list nat),
       preprocess one_hot_ref self pred_1x2x1 grnd_1x2x1
       = ([], Ok (input', target'))
       /\ shape input' = b :: n :: sp /\ shape target' = b :: n :: sp
       /\ v = fold_right Nat.mul 1%nat sp /\ (0 < v)%nat
       /\ shape loss = [b; n]
       /\ (forall bi c, (bi < b)%nat -> (c < n)%nat ->
             nth (bi * n + c) (data loss) 0
             = weighted_bce_entry (class_weight_or_one self c)
                 (data input') (data target') v (bi * n + c))
       /\ forward one_hot_ref self pred_1x2x1 grnd_1x2x1
          = bind ([], Ok loss) (reduce self).
Proof.
  apply (gamma_0_is_weighted_bce_with_logits one_hot_ref one_hot_ref_wf
           (with_gamma 0 (fl_weighted weight_2_3)) pred_1x2x1 grnd_1x2x1 []).
  - reflexivity.
  - reflexivity.
  - reflexivity.
  - exact voxel_loss_gamma_0.
Defined.

(** ** When [forward] returns *)

Lemma reshape_b_n_returns (b n : nat) (sp : list nat) (x : Tensor) :
  shape x = b :: n :: sp -> (0 < b * n)%nat ->
  exists v, reshape_b_n b n x = Ok (mkTensor [b; n; v] (data x)).
Proof.
  intros Hs Hbn. unfold reshape_b_n.
  assert (Hn : numel x = (fold_right Nat.mul 1 sp * (b * n))%nat).
  { unfold numel. rewrite Hs. simpl. lia. }
  destruct (numel x =? 0)%nat.
  - destruct (b * n =? 0)%nat eqn:E; [apply Nat.eqb_eq in E; lia | eauto].
  - destruct (b * n =? 0)%nat eqn:E; [apply Nat.eqb_eq in E; lia |].
    rewrite Hn, Nat.Div0.mod_mul. simpl. eauto.
Qed.

Lemma flatten_returns (input target : Tensor) (b n : nat) (sp : list nat) :
  shape input = b :: n :: sp -> shape target = b :: n :: sp -> (0 < b * n)%nat ->
  exists i t v, flatten input target = ([], Ok (i, t))
                /\ shape i = [b; n; v] /\ shape t = [b; n; v].
Proof.
  intros Hsi Hst Hbn.
  destruct (reshape_b_n_returns b n sp input Hsi Hbn) as [v Hi].
  destruct (reshape_b_n_returns b n sp target Hst Hbn) as [v' Ht].
  exists (mkTensor [b; n; v] (data input)), (mkTensor [b; n; v'] (data target)).
  assert (E : flatten input target
              = ([], Ok (mkTensor [b; n; v] (data input),
                         mkTensor [b; n; v'] (data target)))).
  { unfold flatten. rewrite Hsi, Hst, shape_eqb_refl. cbn [negb firstn].
    rewrite (bind_lift_Ok _ _ (b, n) eq_refl), (bind_lift_Ok _ _ _ Hi),
      (bind_lift_Ok _ _ _ Ht). reflexivity. }
  destruct (flatten_Ok _ _ _ _ _ E)
    as (_ & _ & b0 & n0 & v0 & sp0 & _ & _ & H1 & H2 & _).
  simpl in H1, H2. injection H1 as <- <- <-. injection H2 as ->.
  exists v. auto.
Qed.

Section Returns.

Variable one_hot : Tensor -> nat -> result Tensor.

(** X13: A call that passes every check returns: without one-hot expansion,
    for a prediction and a target of one shape [[B, C, *spatial]] with a
    non-empty batch, at least one class to score and at least one voxel, a
    weight that is absent, or that is stored with no negative and no
    non-finite element and is, if a sequence, as long as the number of
    scored classes and, if a Python int, within the range of int64, and a
    reduction among ["none"], ["mean"], ["sum"], [forward] raises nothing
    and returns a tensor. *)
Theorem forward_returns (self : FocalLoss) (input target : Tensor)
    (b c : nat) (sp : list nat) :
  to_onehot_y self = false ->
  shape input = b :: c :: sp -> shape target = b :: c :: sp ->
  let n := if include_background self || (c =? 1)%nat then c else (c - 1)%nat in
  (0 < b * n)%nat ->
  (0 < fold_right Nat.mul 1 sp)%nat ->
  (forall wt, weight self = Some wt ->
     (forall l, wt = WSeq l -> length l = n)
     /\ (forall z, wt = WInt z -> in_int64 z = true)
     /\ has_negative (stored_weight wt n) = false
     /\ all_finite (stored_weight wt n) = true) ->
  (reduction self = "none" \/ reduction self = "mean" \/ reduction self = "sum")%string ->
  exists out, snd (forward one_hot self input target) = Ok out.
Proof.
  intros Hoh Hsi Hst n Hbn Hvox Hw Hr. rewrite forward_after_preprocess.
  assert (Hpre : exists w input' target',
             preprocess one_hot self input target = (w, Ok (input', target'))
             /\ shape input' = b :: n :: sp /\ shape target' = b :: n :: sp).
  { unfold preprocess.
    assert (Hc : shape_at input 1 = Ok c) by (unfold shape_at; now rewrite Hsi).
    rewrite (bind_lift_Ok _ _ c Hc), Hoh, bind_ret. unfold n.
    destruct (include_background self); cbn [negb orb];
      [exists [], input, target; repeat split; assumption |].
    destruct (c =? 1)%nat.
    - exists [msg_background_ignored], input, target. repeat split; assumption.
    - unfold drop_first_channel. rewrite Hsi, Hst.
      eexists [], _, _. split; [reflexivity |]. split; reflexivity. }
  destruct Hpre as (w & input' & target' & Hpre & Hsi' & Hst').
  rewrite (bind_Ok _ _ w (input', target') Hpre). cbv beta iota. cbn [snd].
  destruct (flatten_returns input' target' b n sp Hsi' Hst' Hbn)
    as (i & t & v & Hfl & Hi & Ht).
  assert (Hv : (0 < v)%nat).
  { destruct (flatten_Ok _ _ _ _ _ Hfl)
      as (_ & _ & b0 & n0 & v0 & sp0 & Hs0 & Hv0 & Hi0 & _).
    rewrite Hsi' in Hs0. injection Hs0 as _ _ <-.
    rewrite Hi in Hi0. injection Hi0 as _ _ ->. now rewrite Hv0. }
  unfold after_preprocess.
  rewrite (bind_Ok _ _ [] (i, t) Hfl). cbv beta iota. cbn [snd].
  assert (Haw : exists ce, apply_weight self i t (cross_entropy i t) = ([], Ok ce)).
  { destruct (weight self) as [wt |] eqn:Ew.
    - destruct (Hw wt eq_refl) as (Hl & Hz & Hneg & Hfin).
      assert (Hn : (0 < n)%nat) by nia.
      destruct (apply_weight_accepts self i t (cross_entropy i t) wt
                  (stored_weight wt n) b n v Ew Hi Ht Hn
                  (class_weight_of_returns wt i b n v Hi Hn Hl Hz) Hneg Hfin)
        as (rs & _ & _ & _ & E).
      eexists. exact E.
    - unfold apply_weight. rewrite Ew. eexists. reflexivity. }
  destruct Haw as [ce Haw].
  rewrite (bind_Ok _ _ [] ce Haw). cbn [snd].
  rewrite (torch_mean_last_dim_Ok _ b n v) by (rewrite ?focal_terms_shape; auto).
  rewrite (bind_lift_Ok _ _ _ eq_refl).
  assert (Hred : exists r, reduction self = LossReduction_value r).
  { destruct Hr as [Hr | [Hr | Hr]];
      [exists NONE | exists MEAN | exists SUM]; exact Hr. }
  destruct Hred as [r Hred].
  destruct (reduce_returns self r (mean_last_dim (focal_terms self i t ce)) Hred)
    as [out Hout].
  exists out. now rewrite Hout.
Qed.

End Returns.

(** ** A weight that does not fit the weight tensor *)

Lemma repeat_not_in_int64 (z : Z) (n : nat) :
  (0 < n)%nat -> in_int64 z = false ->
  as_tensor_ints (repeat z n) = Raise RuntimeError.
Proof.
  intros Hn Hz. destruct n as [| n]; [lia |].
  cbn [repeat as_tensor_ints forallb]. now rewrite Hz.
Qed.

Section IntWeight.

Variable one_hot : Tensor -> nat -> result Tensor.

(** X15: A weight given as a Python int that does not fit int64: on tensors
    that have passed the shape check, [torch.as_tensor] of line 128 raises
    [RuntimeError], before the check of line 136 is reached and whatever the
    sign of the weight. *)
Theorem int_weight_outside_int64_raises (self : FocalLoss) (input target : Tensor)
    (w0 : list string) (input' target' i t : Tensor) (z : Z) :
  preprocess one_hot self input target = (w0, Ok (input', target')) ->
  flatten input' target' = ([], Ok (i, t)) ->
  weight self = Some (WInt z) ->
  in_int64 z = false ->
  forward one_hot self input target = (w0, Raise RuntimeError).
Proof.
  intros Hpre Hfl Hw Hz.
  rewrite (forward_phases one_hot self input target w0 input' target' i t Hpre Hfl).
  destruct (flatten_Ok _ _ _ _ _ Hfl)
    as (_ & _ & b & n & v & sp & _ & _ & Hsi & _ & _ & _ & Hbn).
  assert (Hn : (0 < n)%nat) by nia.
  assert (E : apply_weight self i t (cross_entropy i t) = ([], Raise RuntimeError)).
  { unfold apply_weight, class_weight_of, shape_at. rewrite Hw, Hsi. cbn [nth_error].
    rewrite (bind_lift_Ok _ _ n eq_refl).
    now rewrite (repeat_not_in_int64 z n Hn Hz). }
  rewrite (bind_Raise _ _ [] RuntimeError E). now rewrite app_nil_r.
Qed.

End IntWeight.

Lemma int_weight_outside_int64_raises_witness :
  forward one_hot_ref (fl_weighted (WInt (2 ^ 70))) pred_1x2x1 grnd_1x2x1
  = ([], Raise RuntimeError).
Proof.
  apply (int_weight_outside_int64_raises one_hot_ref (fl_weighted (WInt (2 ^ 70)))
           pred_1x2x1 grnd_1x2x1 [] pred_1x2x1 grnd_1x2x1 pred_1x2x1 grnd_1x2x1
           (2 ^ 70)); reflexivity.
Defined.

(** ** The constructor *)

(** X14: [__init__] rejects an unsupported reduction: given by value, the
    reduction is accepted exactly when it is ["none"], ["mean"] or ["sum"],
    and then stored as it is with the other arguments; any other string
    raises [ValueError] and no instance is built.  A member of the
    enumeration is always accepted and stored by its value. *)
Theorem init_validates_reduction (ib oh : bool) (g : R) (w : option Weight)
    (s : string) :
  ((s = "none" \/ s = "mean" \/ s = "sum")%string ->
   FocalLoss_init ib oh g w (ByValue s) = Ok (mkFocalLoss ib oh g w s))
  /\ (~ (s = "none" \/ s = "mean" \/ s = "sum")%string ->
      exists msg, FocalLoss_init ib oh g w (ByValue s) = Raise (ValueError msg))
  /\ (forall m, FocalLoss_init ib oh g w (ByMember m)
                = Ok (mkFocalLoss ib oh g w (LossReduction_value m))).
Proof.
  split; [| split].
  - intros [-> | [-> | ->]]; reflexivity.
  - intros Hs. unfold FocalLoss_init, LossReduction_call.
    destruct (s =? LossReduction_value NONE)%string eqn:E1;
      [apply String.eqb_eq in E1; elim Hs; now left |].
    destruct (s =? LossReduction_value MEAN)%string eqn:E2;
      [apply String.eqb_eq in E2; elim Hs; right; now left |].
    destruct (s =? LossReduction_value SUM)%string eqn:E3;
      [apply String.eqb_eq in E3; elim Hs; right; now right |].
    eexists. reflexivity.
  - intros m. reflexivity.
Qed.

(** ** Concrete runs of the statements above *)

Lemma forward_needs_channel_axis_witness :
  forward one_hot_ref fl_default pred_1d pred_1d = ([], Raise IndexError).
Proof.
  apply (forward_needs_channel_axis one_hot_ref fl_default pred_1d pred_1d).
  simpl. lia.
Defined.

Lemma forward_refuses_empty_witness :
  forward one_hot_ref fl_default pred_0x2x3 pred_0x2x3 = ([], Raise RuntimeError).
Proof.
  apply (forward_refuses_empty one_hot_ref fl_default pred_0x2x3 pred_0x2x3
           [] pred_0x2x3 pred_0x2x3 0 2 [3%nat]); reflexivity.
Defined.

Lemma forward_warnings_witness :
  fst (forward one_hot_ref (mkFocalLoss false true 2 None "mean")
         logits_1x1x2 labels_1x1x2)
  = if (1 =? 1)%nat
    then (if to_onehot_y (mkFocalLoss false true 2 None "mean")
          then [msg_onehot_ignored] else [])
         ++ (if include_background (mkFocalLoss false true 2 None "mean")
             then [] else [msg_background_ignored])
    else [].
Proof.
  apply (forward_warnings one_hot_ref (mkFocalLoss false true 2 None "mean")
           logits_1x1x2 labels_1x1x2 1).
  reflexivity.
Defined.

Lemma forward_output_shape_witness :
  let out := focal_mean fl_foreground_none pred_1x2x1 grnd_1x2x1
               (cross_entropy pred_1x2x1 grnd_1x2x1) in
  let n := if include_background fl_foreground_none || (3 =? 1)%nat
           then 3%nat else (3 - 1)%nat in
  (reduction fl_foreground_none = "none"%string ->
   shape out = [1%nat; n] /\ length (data out) = (1 * n)%nat /\ (0 < 1 * n)%nat)
  /\ (reduction fl_foreground_none <> "none"%string ->
      shape out = [] /\ length (data out) = 1%nat).
Proof.
  apply (forward_output_shape one_hot_ref fl_foreground_none pred_1x3x1 grnd_1x3x1
           1 3 [1%nat] []); reflexivity.
Defined.

Lemma drop_first_channel_nth_witness :
  shape pred_1x2x1 = [1; 3 - 1; 1]%nat
  /\ nth ((0 * (3 - 1) + 1) * fold_right Nat.mul 1%nat [1%nat] + 0) (data pred_1x2x1) 0
     = nth ((0 * 3 + (1 + 1)) * fold_right Nat.mul 1%nat [1%nat] + 0) (data pred_1x3x1) 0.
Proof.
  apply (drop_first_channel_nth pred_1x3x1 pred_1x2x1 1 3 [1%nat] 0 1 0);
    try reflexivity; simpl; lia.
Defined.

Lemma exclude_background_is_slicing_witness :
  forward one_hot_ref (with_include_background false fl_default)
    pred_1x3x1 grnd_1x3x1
  = forward one_hot_ref (with_include_background true fl_default)
      pred_1x2x1 grnd_1x2x1.
Proof.
  apply (exclude_background_is_slicing one_hot_ref fl_default
           pred_1x3x1 grnd_1x3x1 pred_1x2x1 grnd_1x2x1 3);
    try reflexivity. discriminate.
Defined.





Lemma forward_returns_witness :
  exists out,
    snd (forward one_hot_ref (fl_weighted weight_2_3) pred_1x2x1 grnd_1x2x1)
    = Ok out.
Proof.
  apply (forward_returns one_hot_ref (fl_weighted weight_2_3)
           pred_1x2x1 grnd_1x2x1 1 2 [1%nat]).
  - reflexivity.
  - reflexivity.
  - reflexivity.
  - simpl. lia.
  - simpl. lia.
  - intros wt Hwt. injection Hwt as <-. split; [| split; [| split]].
    + intros l Hl. injection Hl as <-. reflexivity.
    + intros z Hz. discriminate Hz.
    + reflexivity.
    + reflexivity.
  - right. left. reflexivity.
Defined.

(** ** The one-hot expansion *)

Section OneHot.

Variable one_hot : Tensor -> nat -> result Tensor.

(** X9: With several channels, [to_onehot_y=True] is [forward] without the
    flag on the expanded target, and an exception of the expansion is the
    exception of [forward]. *)
Theorem onehot_is_expansion (self : FocalLoss) (input target : Tensor) (c : nat) :
  shape_at input 1 = Ok c -> c <> 1%nat ->
  (forall target1, one_hot target c = Ok target1 ->
     forward one_hot (with_to_onehot_y true self) input target
     = forward one_hot (with_to_onehot_y false self) input target1)
  /\ (forall e, one_hot target c = Raise e ->
        forward one_hot (with_to_onehot_y true self) input target = ([], Raise e)).
Proof.
  intros Hc Hc1. apply Nat.eqb_neq in Hc1. split.
  - intros target1 Hoh. rewrite !forward_after_preprocess.
    assert (E : preprocess one_hot (with_to_onehot_y true self) input target
                = preprocess one_hot (with_to_onehot_y false self) input target1).
    { unfold preprocess. cbn [to_onehot_y include_background with_to_onehot_y].
      rewrite !(bind_lift_Ok _ _ c Hc), Hc1, (bind_lift_Ok _ _ target1 Hoh).
      now rewrite bind_ret. }
    now rewrite E.
  - intros e Hoh. unfold forward, voxel_loss, preprocess.
    cbn [to_onehot_y include_background with_to_onehot_y].
    rewrite (bind_lift_Ok _ _ c Hc), Hc1, Hoh. reflexivity.
Qed.

End OneHot.

Lemma one_hot_doc :
  one_hot_ref grnd_doc 2 = Ok (mkTensor [3; 2]%nat [1; 0; 0; 1; 1; 0]).
Proof.
  unfold one_hot_ref. simpl.
  repeat match goal with
         | |- context [Req_dec_T ?a ?b] =>
             destruct (Req_dec_T a b); try (exfalso; lra)
         end.
  reflexivity.
Qed.

Lemma onehot_is_expansion_witness :
  (forall target1, one_hot_ref grnd_doc 2 = Ok target1 ->
     forward one_hot_ref (with_to_onehot_y true fl_default) pred_doc grnd_doc
     = forward one_hot_ref (with_to_onehot_y false fl_default) pred_doc target1)
  /\ (forall e, one_hot_ref grnd_doc 2 = Raise e ->
        forward one_hot_ref (with_to_onehot_y true fl_default) pred_doc grnd_doc
        = ([], Raise e)).
Proof.
  apply (onehot_is_expansion one_hot_ref fl_default pred_doc grnd_doc 2).
  - reflexivity.
  - discriminate.
Defined.
